(** * decrypt_pageprops_a: blob splitting, tolerant base64 and the decrypt pipeline

    A shallow embedding of [decrypt_pageprops_a.py].  Python [str] values are
    lists of Unicode code points, [bytes] values are lists of [Byte.byte],
    exceptions are the [Err] case of a [result].  The functions of the Python
    standard library that the script calls ([str.strip], [base64.b64decode],
    [str.rfind], slicing) are written out next to the script's own functions;
    the hash, the block cipher, the UTF-8 codec and the JSON parser are
    parameters of the section that embeds the decryptor. *)

From Stdlib.Strings Require Import String Ascii Byte.
From Stdlib Require Import List NArith ZArith Bool Lia.
Import ListNotations.

(** ** Python values *)

Module Py.

(** A character is its Unicode code point. *)
Definition char := N.
Definition str := list char.
Definition bytes := list byte.

(** A string literal of the development, character by character. *)
Definition lit (s : string) : str :=
  List.map N_of_ascii (list_ascii_of_string s).

Definition str_eqb (a b : str) : bool :=
  if list_eq_dec N.eq_dec a b then true else false.

(** [str.isspace] on one character: the code points CPython lists as
    whitespace. *)
Definition isspace (c : char) : bool :=
  ((9 <=? c) && (c <=? 13) || (28 <=? c) && (c <=? 32)
   || (c =? 133) || (c =? 160) || (c =? 5760)
   || (8192 <=? c) && (c <=? 8202)
   || (c =? 8232) || (c =? 8233) || (c =? 8239) || (c =? 8287)
   || (c =? 12288))%N.

Fixpoint lstrip (p : char -> bool) (s : str) : str :=
  match s with
  | [] => []
  | c :: s' => if p c then lstrip p s' else s
  end.

Definition rstrip (p : char -> bool) (s : str) : str :=
  rev (lstrip p (rev s)).

(** [s.strip()] is [strip isspace s]; [s.strip(chars)] is
    [strip (one_of chars) s]. *)
Definition strip (p : char -> bool) (s : str) : str :=
  rstrip p (lstrip p s).

Definition one_of (chars : str) (c : char) : bool :=
  existsb (N.eqb c) chars.

(** [s.replace(old, new)] for one-character [old] and [new]. *)
Definition replace (old new : char) (s : str) : str :=
  List.map (fun c => if N.eqb c old then new else c) s.

(** [s.rfind(c)] for a one-character needle: the highest index holding [c],
    or [-1]. *)
Fixpoint rfind_from (c : char) (s : str) (i : Z) (best : Z) : Z :=
  match s with
  | [] => best
  | x :: s' => rfind_from c s' (i + 1) (if N.eqb x c then i else best)
  end.

Definition rfind (c : char) (s : str) : Z := rfind_from c s 0 (-1).

(** Slices [s[i:]] and [s[:i]] for an index [0 <= i]. *)
Definition slice_from (i : nat) (s : str) : str := skipn i s.
Definition slice_to (i : nat) (s : str) : str := firstn i s.

Definition byte_of_N (n : N) : byte :=
  match Byte.of_N (n mod 256) with
  | Some b => b
  | None => x00
  end.

(** [s.encode("ascii")]: fails on a character above 127. *)
Fixpoint encode_ascii (s : str) : option bytes :=
  match s with
  | [] => Some []
  | c :: s' =>
      if (c <? 128)%N then
        match encode_ascii s' with
        | Some bs => Some (byte_of_N c :: bs)
        | None => None
        end
      else None
  end.

(** [b.decode("ascii")] on bytes known to be ASCII. *)
Definition decode_ascii (b : bytes) : str := List.map Byte.to_N b.

End Py.

Import Py.

(** ** Errors *)

(** What [b64decode_loose] can raise: its own [ValueError], the [ValueError]
    of [base64.b64decode] on a non-ASCII string, and the two [binascii.Error]
    messages of the decoder. *)
Inductive decode_error : Type :=
| InvalidLengthMod4
| NonAsciiString
| OneMoreThanMultipleOf4 (data_chars : nat)
| IncorrectPadding.

Inductive error : Type :=
| DecodeError (e : decode_error)
| SplitFailed (attempts : list (str * nat * decode_error))
| PayloadTooShort (n : nat)
| IncorrectKeyLength
| InitialValueTooLarge
| UnicodeEncodeError
| UnicodeDecodeError
| JSONDecodeError
| LocateError.

Inductive result (E A : Type) : Type :=
| Ok (a : A)
| Err (e : E).
Arguments Ok {E A} a.
Arguments Err {E A} e.

(** ** base64 of the standard library *)

Module Base64.

Definition PAD : byte := "=".

(** [table_a2b_base64]: the six-bit value of an alphabet character, and a
    value above 63 for every other byte. *)
Definition table_a2b_base64 (c : byte) : N :=
  let n := Byte.to_N c in
  (if (65 <=? n) && (n <=? 90) then n - 65
   else if (97 <=? n) && (n <=? 122) then n - 71
   else if (48 <=? n) && (n <=? 57) then n + 4
   else if n =? 43 then 62
   else if n =? 47 then 63
   else 255)%N.

(** The loop of [binascii.a2b_base64] outside strict mode.  [quad_pos] is the
    position in the current group of four, [leftchar] the bits left over from
    the previous character, [pads] the number of pad characters seen since the
    last data character, [bin] the bytes written so far. *)
Fixpoint a2b_loop (data : bytes) (quad_pos : nat) (leftchar : N) (pads : nat)
    (bin : bytes) : result decode_error bytes :=
  match data with
  | [] =>
      match quad_pos with
      | 0 => Ok bin
      | 1 => Err (OneMoreThanMultipleOf4 (length bin / 3 * 4 + 1))
      | _ => Err IncorrectPadding
      end
  | this_ch :: rest =>
      if Byte.eqb this_ch PAD then
        if 2 <=? quad_pos then
          if 4 <=? quad_pos + S pads then Ok bin
          else a2b_loop rest quad_pos leftchar (S pads) bin
        else a2b_loop rest quad_pos leftchar pads bin
      else
        let v := table_a2b_base64 this_ch in
        if (64 <=? v)%N then a2b_loop rest quad_pos leftchar pads bin
        else
          match quad_pos with
          | 0 => a2b_loop rest 1 v 0 bin
          | 1 =>
              a2b_loop rest 2 (N.land v 15) 0
                (bin ++ [byte_of_N (N.lor (N.shiftl leftchar 2) (N.shiftr v 4))])
          | 2 =>
              a2b_loop rest 3 (N.land v 3) 0
                (bin ++ [byte_of_N (N.lor (N.shiftl leftchar 4) (N.shiftr v 2))])
          | _ =>
              a2b_loop rest 0 0 0
                (bin ++ [byte_of_N (N.lor (N.shiftl leftchar 6) v)])
          end
  end.

Definition a2b_base64 (data : bytes) : result decode_error bytes :=
  a2b_loop data 0 0 0 [].

(** [base64.b64decode(s)] on a [str], with [validate=False]. *)
Definition b64decode (s : str) : result decode_error bytes :=
  match encode_ascii s with
  | None => Err NonAsciiString
  | Some data => a2b_base64 data
  end.

(** The standard alphabet, by six-bit value. *)
Definition table_b2a_base64 (v : N) : byte :=
  byte_of_N
    (if v <? 26 then v + 65
     else if v <? 52 then v + 71
     else if v <? 62 then v - 4
     else if v =? 62 then 43
     else 47)%N.

(** [base64.b64encode]: three bytes to four characters, and one or two
    trailing bytes to a group padded with [=]. *)
Fixpoint b64encode (b : bytes) : bytes :=
  match b with
  | [] => []
  | [b0] =>
      let n0 := Byte.to_N b0 in
      [ table_b2a_base64 (N.shiftr n0 2);
        table_b2a_base64 (N.shiftl (N.land n0 3) 4);
        PAD; PAD ]
  | [b0; b1] =>
      let n0 := Byte.to_N b0 in
      let n1 := Byte.to_N b1 in
      [ table_b2a_base64 (N.shiftr n0 2);
        table_b2a_base64 (N.lor (N.shiftl (N.land n0 3) 4) (N.shiftr n1 4));
        table_b2a_base64 (N.shiftl (N.land n1 15) 2);
        PAD ]
  | b0 :: b1 :: b2 :: rest =>
      let n0 := Byte.to_N b0 in
      let n1 := Byte.to_N b1 in
      let n2 := Byte.to_N b2 in
      table_b2a_base64 (N.shiftr n0 2)
      :: table_b2a_base64 (N.lor (N.shiftl (N.land n0 3) 4) (N.shiftr n1 4))
      :: table_b2a_base64 (N.lor (N.shiftl (N.land n1 15) 2) (N.shiftr n2 6))
      :: table_b2a_base64 (N.land n2 63)
      :: b64encode rest
  end.

End Base64.

(** ** The tolerant decoder *)

Definition b64decode_loose (s : str) : result decode_error bytes :=
  let s := strip isspace s in
  let s := replace (N_of_ascii "_") (N_of_ascii "/")
             (replace (N_of_ascii "-") (N_of_ascii "+") s) in
  let mod_ := length s mod 4 in
  if mod_ =? 1 then Err InvalidLengthMod4
  else
    let s := if (mod_ =? 2) || (mod_ =? 3)
             then s ++ repeat (N_of_ascii "=") (4 - mod_)
             else s in
    Base64.b64decode s.

(** ** The Splitter *)

Definition EQUALS : char := N_of_ascii "=".
Definition DQUOTE : char := 34%N.
Definition SQUOTE : char := 39%N.

(** Line 58: three [strip] calls in a row, of whitespace, of the double quote
    and of the single quote. *)
Definition trim (blob : str) : str :=
  strip (one_of [SQUOTE]) (strip (one_of [DQUOTE]) (strip isspace blob)).

Definition candidate : Type := (str * str)%type.

(** One turn of the loop of lines 63-68, for one [key_len]. *)
Definition guess_suffix (blob : str) (candidates : list candidate)
    (key_len : nat) : list candidate :=
  let L := length blob in
  if L <=? key_len + 10 then candidates
  else
    let key_str := slice_from (L - key_len) blob in
    let enc_b64 := slice_to (L - key_len) blob in
    candidates ++ [(key_str, enc_b64)].

Definition key_lens : list nat := [21; 22; 20; 23].

Definition suffix_candidates (blob : str) : list candidate :=
  fold_left (guess_suffix blob) key_lens [].

(** Lines 72-77: the split on the last [=], put in front when it yields a
    plausible key length. *)
Definition insert_delimiter (blob : str) (candidates : list candidate)
    : list candidate :=
  let L := Z.of_nat (length blob) in
  let last_eq := rfind EQUALS blob in
  if negb (last_eq =? -1)%Z && (last_eq <? L - 5)%Z then
    let possible_key := slice_from (Z.to_nat (last_eq + 1)) blob in
    let possible_enc := slice_to (Z.to_nat (last_eq + 1)) blob in
    if (18 <=? length possible_key) && (length possible_key <=? 30)
    then (possible_key, possible_enc) :: candidates
    else candidates
  else candidates.

Definition candidates_of (blob : str) : list candidate :=
  insert_delimiter blob (suffix_candidates blob).

Definition attempt : Type := (str * nat * decode_error)%type.

(** Lines 80-90: the first candidate whose [enc_b64] decodes is returned; the
    failures are collected for the diagnostic, which shows at most eight. *)
Fixpoint validate (candidates : list candidate) (errors : list attempt)
    : result error candidate :=
  match candidates with
  | [] => Err (SplitFailed (firstn 8 errors))
  | (key_str, enc_b64) :: rest =>
      match b64decode_loose enc_b64 with
      | Ok _ => Ok (key_str, enc_b64)
      | Err e =>
          validate rest (errors ++ [(slice_to 8 key_str, length enc_b64, e)])
      end
  end.

Definition split_blob_guess (blob : str) : result error candidate :=
  let blob := trim blob in
  validate (candidates_of blob) [].

(** ** JSON values *)

(** What [json.load] returns: [None], a [bool], an [int], a [float] (kept as
    the 64 bits of its binary64 value), a [str], a [list], or a [dict] with
    its entries in insertion order. *)
#[local] Unset Elimination Schemes.
Inductive json : Type :=
| JNull
| JBool (b : bool)
| JInt (n : Z)
| JFloat (bits : N)
| JStr (s : str)
| JList (items : list json)
| JDict (entries : list (str * json)).
#[local] Set Elimination Schemes.

(** [d.get(key)] on a dict kept as its entries in insertion order. *)
Fixpoint dict_get (key : str) (entries : list (str * json)) : option json :=
  match entries with
  | [] => None
  | (k, v) :: rest => if str_eqb k key then Some v else dict_get key rest
  end.

Definition values (entries : list (str * json)) : list json :=
  List.map snd entries.

(** ** The Locator *)

Definition PAGEPROPS : str := lit "pageProps".
Definition PROPS : str := lit "props".
Definition A : str := lit "a".

(** [isinstance(pp, dict) and isinstance(pp.get("a"), str)], with the string
    when both hold. *)
Definition dict_str_a (pp : option json) : option str :=
  match pp with
  | Some (JDict entries) =>
      match dict_get A entries with
      | Some (JStr s) => Some s
      | _ => None
      end
  | _ => None
  end.

(** Lines 144-159. *)
Fixpoint rec (node : json) : option str :=
  match node with
  | JDict entries =>
      match dict_str_a (dict_get PAGEPROPS entries) with
      | Some a => Some a
      | None =>
          (fix over_values (es : list (str * json)) : option str :=
             match es with
             | [] => None
             | (_, v) :: es' =>
                 match rec v with
                 | Some got => Some got
                 | None => over_values es'
                 end
             end) entries
      end
  | JList items =>
      (fix over_items (l : list json) : option str :=
         match l with
         | [] => None
         | it :: l' =>
             match rec it with
             | Some got => Some got
             | None => over_items l'
             end
         end) items
  | _ => None
  end.

(** Lines 130-141: the two direct paths. *)
Definition direct_pageprops (data : json) : option str :=
  match data with
  | JDict entries => dict_str_a (dict_get PAGEPROPS entries)
  | _ => None
  end.

Definition direct_props_pageprops (data : json) : option str :=
  match data with
  | JDict entries =>
      match dict_get PROPS entries with
      | Some (JDict props) => dict_str_a (dict_get PAGEPROPS props)
      | _ => None
      end
  | _ => None
  end.

Definition find_pageprops_a (data : json) : option str :=
  match direct_pageprops data with
  | Some a => Some a
  | None =>
      match direct_props_pageprops data with
      | Some a => Some a
      | None => rec data
      end
  end.

(** ** Integers and bytes *)

(** [int.from_bytes(b, "big")]. *)
Definition from_bytes_big (b : bytes) : N :=
  fold_left (fun acc x => (acc * 256 + Byte.to_N x)%N) b 0%N.

(** The big-endian [len]-byte block of a counter value. *)
Fixpoint to_bytes_big (len : nat) (n : N) : bytes :=
  match len with
  | 0 => []
  | S len' => to_bytes_big len' (n / 256) ++ [byte_of_N n]
  end.

Definition xor_bytes (a b : bytes) : bytes :=
  List.map (fun p => byte_of_N (N.lxor (Byte.to_N (fst p)) (Byte.to_N (snd p))))
    (combine a b).

Notation "'let*' x ':=' e 'in' k" :=
  (match e with Ok x => k | Err err => Err err end)
  (at level 10, x pattern, e at level 200, k at level 200, only parsing).

(** ** The Decryptor and the program *)

Section Decryptor.

(** The primitives of the platform: [hashlib.sha256(m).digest()], the AES
    block encryption under a key, the strict UTF-8 codec and [json.loads]. *)
Variable sha256 : bytes -> bytes.
Variable aes_encrypt_block : bytes -> bytes -> bytes.
Variable utf8_encode : str -> option bytes.
Variable utf8_decode : bytes -> option str.
Variable json_loads : str -> option json.

(** A counter-mode cipher object: the key and the next counter value. *)
Record CtrCipher : Type := { ctr_key : bytes; ctr_counter : N }.

Definition COUNTER_MODULUS : N := (2 ^ 128)%N.

(** [AES.new(key, AES.MODE_CTR, nonce=b"", initial_value=n)]: the whole block
    of 16 bytes is the counter. *)
Definition AES_new_ctr (key : bytes) (initial_value : N)
    : result error CtrCipher :=
  if negb ((length key =? 16) || (length key =? 24) || (length key =? 32))
  then Err IncorrectKeyLength
  else if (COUNTER_MODULUS - 1 <? initial_value)%N then Err InitialValueTooLarge
  else Ok {| ctr_key := key; ctr_counter := initial_value |}.

(** The key stream of [nblocks] blocks: each block is the encryption of the
    counter block, and the counter wraps around after its last value. *)
Fixpoint keystream (key : bytes) (counter : N) (nblocks : nat) : bytes :=
  match nblocks with
  | 0 => []
  | S n =>
      aes_encrypt_block key (to_bytes_big 16 counter)
      ++ keystream key ((counter + 1) mod COUNTER_MODULUS)%N n
  end.

(** [cipher.decrypt(ct)], and [cipher.encrypt(pt)], which is the same
    operation in counter mode. *)
Definition ctr_crypt (cipher : CtrCipher) (data : bytes) : bytes :=
  xor_bytes data
    (keystream (ctr_key cipher) (ctr_counter cipher) ((length data + 15) / 16)).

Definition raise_none {T : Type} (e : error) (o : option T) : result error T :=
  match o with
  | Some x => Ok x
  | None => Err e
  end.

Definition raise_decode {T : Type} (r : result decode_error T)
    : result error T :=
  match r with
  | Ok x => Ok x
  | Err e => Err (DecodeError e)
  end.

(** Lines 104-121. *)
Definition decrypt_blob (blob : str) : result error json :=
  let* (key_str, enc_b64) := split_blob_guess blob in
  let* key_bytes := raise_none UnicodeEncodeError (utf8_encode key_str) in
  let key := sha256 key_bytes in
  let* raw := raise_decode (b64decode_loose enc_b64) in
  if length raw <? 17 then Err (PayloadTooShort (length raw))
  else
    let iv := firstn 16 raw in
    let ct := skipn 16 raw in
    let* cipher := AES_new_ctr key (from_bytes_big iv) in
    let pt := ctr_crypt cipher ct in
    let* text := raise_none UnicodeDecodeError (utf8_decode pt) in
    raise_none JSONDecodeError (json_loads text).

(** [not blob] for an [Optional[str]]: true of [None] and of the empty
    string. *)
Definition not_ (blob : option str) : bool :=
  match blob with
  | None => true
  | Some [] => true
  | Some (_ :: _) => false
  end.

(** Lines 173-177 of [main], on the loaded JSON value; the result is the value
    the Emitter prints. *)
Definition main (data : json) : result error json :=
  let blob := find_pageprops_a data in
  if not_ blob then Err LocateError
  else
    match blob with
    | Some blob => decrypt_blob blob
    | None => Err LocateError
    end.

End Decryptor.

(** * Definitions used by the properties *)

(** ** Strings *)

Definition starts_with (p : char -> bool) (s : str) : bool :=
  match s with
  | [] => false
  | c :: _ => p c
  end.

Definition ends_with (p : char -> bool) (s : str) : bool :=
  starts_with p (rev s).

(** The trim the specification words: whitespace, then one layer of a matching
    pair of quotes. *)
Definition is_quote (c : char) : bool := N.eqb c DQUOTE || N.eqb c SQUOTE.

Definition strip_one_quote_layer (s : str) : str :=
  match s with
  | [] => []
  | q :: rest =>
      match rev rest with
      | [] => s
      | q' :: mid => if is_quote q && N.eqb q q' then rev mid else s
      end
  end.

Definition trim_one_layer (blob : str) : str :=
  strip_one_quote_layer (strip isspace blob).

(** A character that [trim] removes from an end of the blob. *)
Definition outer (c : char) : bool :=
  isspace c || one_of [DQUOTE] c || one_of [SQUOTE] c.

(** The length the specification speaks of: that of the string without its
    trailing pad characters. *)
Definition strip_padding (s : str) : str := rstrip (one_of [EQUALS]) s.

(** ** Candidates of the Splitter *)

(** The candidate of one key length, when the guess is not skipped. *)
Definition suffix_guess (b : str) (k : nat) : list candidate :=
  if length b <=? k + 10 then []
  else [(skipn (length b - k) b, firstn (length b - k) b)].

(** [first_decodable cs c]: [c] is in [cs], its ciphertext half decodes, and
    the ciphertext half of every candidate before it does not. *)
Inductive first_decodable : list candidate -> candidate -> Prop :=
| first_here c rest raw :
    b64decode_loose (snd c) = Ok raw -> first_decodable (c :: rest) c
| first_later c' rest c e :
    b64decode_loose (snd c') = Err e ->
    first_decodable rest c -> first_decodable (c' :: rest) c.

(** The split on the last [=] as the specification words it: the [=] is at
    least five characters before the end, and the text after it has 18 to 30
    characters. *)
Inductive delimiter_split (b : str) : candidate -> Prop :=
| delimiter_split_at pre post :
    b = pre ++ EQUALS :: post ->
    ~ In EQUALS post ->
    5 <= length post ->
    18 <= length post <= 30 ->
    delimiter_split b (post, pre ++ [EQUALS]).

(** ** base64: sextets and character classes *)

Definition below (n : nat) : list N := List.map N.of_nat (seq 0 n).

Module Base64Spec.
Import Base64.

(** The four sextets of three bytes, as [b64encode] computes them. *)
Definition sextet0 (b0 : byte) : N := N.shiftr (Byte.to_N b0) 2.
Definition sextet1 (b0 b1 : byte) : N :=
  N.lor (N.shiftl (N.land (Byte.to_N b0) 3) 4) (N.shiftr (Byte.to_N b1) 4).
Definition sextet2 (b1 b2 : byte) : N :=
  N.lor (N.shiftl (N.land (Byte.to_N b1) 15) 2) (N.shiftr (Byte.to_N b2) 6).
Definition sextet3 (b2 : byte) : N := N.land (Byte.to_N b2) 63.
Definition sextet1_last (b0 : byte) : N := N.shiftl (N.land (Byte.to_N b0) 3) 4.
Definition sextet2_last (b1 : byte) : N := N.shiftl (N.land (Byte.to_N b1) 15) 2.

(** A character of the alphabet is not the pad and has its own value. *)
Definition alphabet_ok (v : N) : bool :=
  negb (Byte.eqb (table_b2a_base64 v) PAD)
  && (table_a2b_base64 (table_b2a_base64 v) =? v)%N.

Definition pair01_ok (b0 b1 : byte) : bool :=
  ((sextet0 b0 <? 64) && (sextet1 b0 b1 <? 64) && (sextet1_last b0 <? 64)
   && (N.land (sextet1 b0 b1) 15 =? N.shiftr (Byte.to_N b1) 4)
   && (N.land (sextet1_last b0) 15 =? 0))%N
  && Byte.eqb
       (byte_of_N (N.lor (N.shiftl (sextet0 b0) 2) (N.shiftr (sextet1 b0 b1) 4)))
       b0
  && Byte.eqb
       (byte_of_N (N.lor (N.shiftl (sextet0 b0) 2) (N.shiftr (sextet1_last b0) 4)))
       b0.

Definition pair12_ok (b1 b2 : byte) : bool :=
  ((sextet2 b1 b2 <? 64) && (sextet2_last b1 <? 64) && (sextet3 b2 <? 64)
   && (N.land (sextet2 b1 b2) 3 =? N.shiftr (Byte.to_N b2) 6))%N
  && Byte.eqb
       (byte_of_N (N.lor (N.shiftl (N.shiftr (Byte.to_N b1) 4) 4)
                         (N.shiftr (sextet2 b1 b2) 2)))
       b1
  && Byte.eqb
       (byte_of_N (N.lor (N.shiftl (N.shiftr (Byte.to_N b1) 4) 4)
                         (N.shiftr (sextet2_last b1) 2)))
       b1
  && Byte.eqb
       (byte_of_N (N.lor (N.shiftl (N.shiftr (Byte.to_N b2) 6) 6) (sextet3 b2)))
       b2.

(** A character that the first steps of [b64decode_loose] leave alone. *)
Definition plain (c : byte) : bool :=
  let n := Byte.to_N c in
  (n <? 128)%N && negb (isspace n)
  && negb (N.eqb n (N_of_ascii "-")) && negb (N.eqb n (N_of_ascii "_"))
  && negb (N.eqb n DQUOTE) && negb (N.eqb n SQUOTE).

(** A data character: of the standard alphabet or one of the two URL-safe
    characters that [b64decode_loose] maps into it. *)
Definition data_char (c : char) : bool :=
  ((65 <=? c) && (c <=? 90) || (97 <=? c) && (c <=? 122)
   || (48 <=? c) && (c <=? 57)
   || (c =? 43) || (c =? 47) || (c =? 45) || (c =? 95))%N.

Definition to_standard (s : str) : str :=
  replace (N_of_ascii "_") (N_of_ascii "/")
    (replace (N_of_ascii "-") (N_of_ascii "+") s).

Definition data_byte (c : byte) : bool :=
  negb (Byte.eqb c PAD) && (table_a2b_base64 c <? 64)%N.

Definition standard_char (c : char) : char :=
  let c := if N.eqb c (N_of_ascii "-") then N_of_ascii "+" else c in
  if N.eqb c (N_of_ascii "_") then N_of_ascii "/" else c.

Definition data_char_ok (c : char) : bool :=
  implb (data_char c)
    (negb (isspace c) && (standard_char c <? 128)%N
     && data_byte (byte_of_N (standard_char c))).

End Base64Spec.

(** ** JSON values: induction, paths and traversal *)

Section JsonInduction.

Variable P : json -> Prop.
Hypothesis Hnull : P JNull.
Hypothesis Hbool : forall b, P (JBool b).
Hypothesis Hint : forall n, P (JInt n).
Hypothesis Hfloat : forall f, P (JFloat f).
Hypothesis Hstr : forall s, P (JStr s).
Hypothesis Hlist : forall items, Forall P items -> P (JList items).
Hypothesis Hdict :
  forall entries, Forall (fun e => P (snd e)) entries -> P (JDict entries).

Fixpoint json_ind (j : json) : P j :=
  match j with
  | JNull => Hnull
  | JBool b => Hbool b
  | JInt n => Hint n
  | JFloat f => Hfloat f
  | JStr s => Hstr s
  | JList items =>
      Hlist items
        ((fix all (l : list json) : Forall P l :=
            match l with
            | [] => Forall_nil P
            | it :: l' => Forall_cons it (json_ind it) (all l')
            end) items)
  | JDict entries =>
      Hdict entries
        ((fix all (l : list (str * json)) : Forall (fun e => P (snd e)) l :=
            match l with
            | [] => Forall_nil _
            | e :: l' =>
                Forall_cons (P := fun e => P (snd e)) e
                  (json_ind (snd e)) (all l')
            end) entries)
  end.

End JsonInduction.

(** The value at a path of keys, through objects only. *)
Fixpoint at_path (path : list str) (data : json) : option json :=
  match path with
  | [] => Some data
  | key :: path' =>
      match data with
      | JDict entries =>
          match dict_get key entries with
          | Some v => at_path path' v
          | None => None
          end
      | _ => None
      end
  end.

Definition string_at (path : list str) (data : json) : option str :=
  match at_path path data with
  | Some (JStr s) => Some s
  | _ => None
  end.

(** [reach data node]: [node] is [data] or is nested in it, under any depth
    of object values and array items. *)
Inductive reach : json -> json -> Prop :=
| reach_here data : reach data data
| reach_item items it node :
    In it items -> reach it node -> reach (JList items) node
| reach_value entries key v node :
    In (key, v) entries -> reach v node -> reach (JDict entries) node.

Definition option_list {T : Type} (o : option T) : list T :=
  match o with
  | Some x => [x]
  | None => []
  end.

(** The strings at [pageProps.a] of the nodes of a value, in the order of a
    depth-first traversal that visits a node before its children, the values
    of an object in insertion order and the items of an array in order. *)
Fixpoint depth_first (node : json) : list str :=
  match node with
  | JDict entries =>
      option_list (string_at [PAGEPROPS; A] node)
      ++ flat_map (fun e => depth_first (snd e)) entries
  | JList items => flat_map depth_first items
  | _ => []
  end.

Definition first_some {T : Type} (a b : option T) : option T :=
  match a with
  | Some x => Some x
  | None => b
  end.

(** ** Counter mode and the inverse construction *)

Section DecryptorSpec.

Variable sha256 : bytes -> bytes.
Variable aes_encrypt_block : bytes -> bytes -> bytes.
Variable utf8_decode : bytes -> option str.
Variable json_loads : str -> option json.

(** Counter mode as the specification words it: block [i] of the key stream
    is the encryption of the 16 bytes of the IV, read as a big-endian
    integer, plus [i]. *)
Definition counter_block (iv : bytes) (i : nat) : bytes :=
  to_bytes_big 16 ((from_bytes_big iv + N.of_nat i) mod COUNTER_MODULUS)%N.

Definition counter_mode (key iv data : bytes) : bytes :=
  xor_bytes data
    (flat_map (fun i => aes_encrypt_block key (counter_block iv i))
       (seq 0 ((length data + 15) / 16))).

(** The Decryptor after the split, as the specification words it. *)
Definition decryptor_steps (key_bytes raw : bytes) : result error json :=
  let key := sha256 key_bytes in
  let pt := counter_mode key (firstn 16 raw) (skipn 16 raw) in
  let* text := raise_none UnicodeDecodeError (utf8_decode pt) in
  raise_none JSONDecodeError (json_loads text).

(** The blob of a key material, an IV and the plaintext bytes: the base64
    of the IV followed by the counter-mode encryption under the digest of
    the key material's bytes, then the key material itself. *)
Definition inverse_blob (key_material : str) (key_bytes iv pt : bytes) : str :=
  decode_ascii
    (Base64.b64encode (iv ++ counter_mode (sha256 key_bytes) iv pt))
  ++ key_material.

End DecryptorSpec.

(** ** Stand-ins for the primitives *)

(** Small functions of the right shapes, on which the definitions run; the
    theorems hold for any primitives. *)
Module Sample.

Definition sha256 (m : bytes) : bytes := firstn 32 (m ++ repeat x00 32).

Definition aes_encrypt_block (key block : bytes) : bytes :=
  xor_bytes (xor_bytes block (firstn 16 key)) (skipn 16 key).

Definition utf8_encode (s : str) : option bytes := encode_ascii s.

Definition utf8_decode (b : bytes) : option str :=
  if forallb (fun c => (Byte.to_N c <? 128)%N) b
  then Some (decode_ascii b)
  else None.

Definition json_loads (s : str) : option json :=
  if str_eqb s (lit "[1]") then Some (JList [JInt 1])
  else if str_eqb s (lit "1") then Some (JInt 1)
  else None.

Definition decrypt_blob : str -> result error json :=
  decrypt_blob sha256 aes_encrypt_block utf8_encode utf8_decode json_loads.

Definition main : json -> result error json :=
  main sha256 aes_encrypt_block utf8_encode utf8_decode json_loads.

Definition bytes_of (s : str) : bytes := List.map byte_of_N s.

Definition blob_of (key_material text : str) (iv : bytes) : str :=
  inverse_blob sha256 aes_encrypt_block key_material (bytes_of key_material)
    iv (bytes_of text).

(** The document of the scenario, with the blob at [props.pageProps.a]. *)
Definition document (blob : str) : json :=
  JDict [(PROPS, JDict [(PAGEPROPS, JDict [(A, JStr blob)])])].

Definition iv : bytes := to_bytes_big 16 (2 ^ 128 - 2).

End Sample.

(** ** Two statements of the specification *)

(** The locate step as the specification words it: the locate error exactly
    when the Locator finds nothing, and the Splitter next for any string. *)
Definition locate_error_only_when_absent : Prop :=
  forall sha256 aes_encrypt_block utf8_encode utf8_decode json_loads data,
    (main sha256 aes_encrypt_block utf8_encode utf8_decode json_loads data
     = Err LocateError
     <-> find_pageprops_a data = None)
    /\ (forall blob,
          find_pageprops_a data = Some blob ->
          main sha256 aes_encrypt_block utf8_encode utf8_decode json_loads data
          = decrypt_blob sha256 aes_encrypt_block utf8_encode utf8_decode
              json_loads blob).

(** The round trip of the inverse construction, for every key material. *)
Definition roundtrip_for_every_key_material : Prop :=
  forall sha256 aes_encrypt_block utf8_encode utf8_decode json_loads
         (key_material text : str) (key_bytes iv pt : bytes) (v data : json),
    utf8_encode key_material = Some key_bytes ->
    length (sha256 key_bytes) = 32 ->
    (forall block, length block = 16 ->
                   length (aes_encrypt_block (sha256 key_bytes) block) = 16) ->
    length iv = 16 ->
    pt <> [] ->
    utf8_decode pt = Some text ->
    json_loads text = Some v ->
    find_pageprops_a data
    = Some (inverse_blob sha256 aes_encrypt_block key_material key_bytes iv pt) ->
    main sha256 aes_encrypt_block utf8_encode utf8_decode json_loads data
    = Ok v.

(** [str.encode("utf-8")] with the default strict error handler: one to
    four bytes for each code point, and [UnicodeEncodeError] ([None]) on a
    surrogate, U+D800 to U+DFFF, which a [str] of Python may hold (the JSON
    escape of a lone surrogate loads as one). *)
Module Utf8.

Definition continuation (n : N) : byte := byte_of_N (128 + n mod 64).

Definition encode_char (c : char) : option bytes :=
  if (c <? 128)%N then Some [byte_of_N c]
  else if (c <? 2048)%N then
    Some [byte_of_N (192 + c / 64); continuation c]
  else if ((55296 <=? c) && (c <=? 57343))%N then None
  else if (c <? 65536)%N then
    Some [byte_of_N (224 + c / 4096); continuation (c / 64); continuation c]
  else if (c <? 1114112)%N then
    Some [byte_of_N (240 + c / 262144); continuation (c / 4096);
          continuation (c / 64); continuation c]
  else None.

Fixpoint encode (s : str) : option bytes :=
  match s with
  | [] => Some []
  | c :: s' =>
      match encode_char c, encode s' with
      | Some b, Some bs => Some (b ++ bs)
      | _, _ => None
      end
  end.

End Utf8.

(** The length test of the Decryptor as the specification words it: after
    the split, with [raw] the decoded ciphertext half, the payload-too-short
    error exactly when [raw] has fewer than 17 bytes, for every key
    material. *)
Definition payload_too_short_exactly_when_short : Prop :=
  forall sha256 aes_encrypt_block utf8_encode utf8_decode json_loads
         (blob key_str enc_b64 : str) (raw : bytes),
    (forall m, length (sha256 m) = 32) ->
    split_blob_guess blob = Ok (key_str, enc_b64) ->
    b64decode_loose enc_b64 = Ok raw ->
    ((exists n,
        decrypt_blob sha256 aes_encrypt_block utf8_encode utf8_decode
          json_loads blob
        = Err (PayloadTooShort n))
     <-> length raw < 17).

(** A blob whose 21 characters of key material start with the lone surrogate
    U+D800, after a ciphertext half that decodes to nine bytes. *)
Definition surrogate_key : str := 55296%N :: lit "bcdefghijklmnopqrstu".

Definition surrogate_blob : str := lit "QUJDQUJDQUJD" ++ surrogate_key.

(** ** Definitions of the further properties *)

(** The URL-safe spelling of a base64 string: [-] for [+] and [_] for [/]. *)
Definition urlsafe (s : str) : str :=
  replace (N_of_ascii "/") (N_of_ascii "_")
    (replace (N_of_ascii "+") (N_of_ascii "-") s).

(** The entry of the diagnostic for a candidate: the first eight characters
    of its key, the length of its ciphertext half and the error of the
    decoder. *)
Definition attempt_of (c : candidate) : attempt :=
  (slice_to 8 (fst c), length (snd c),
   match b64decode_loose (snd c) with
   | Err e => e
   | Ok _ => InvalidLengthMod4
   end).

(** The bytes that the decoder can still write before the next data
    character, by position in the group of four: it writes at most three
    bytes for four data characters. *)
Definition credit (quad_pos : nat) : nat :=
  match quad_pos with
  | 0 => 0
  | 1 => 3
  | 2 => 2
  | _ => 1
  end.

(** The number of bytes that are not the pad. *)
Definition count_not_pad (data : bytes) : nat :=
  length (filter (fun c => negb (Byte.eqb c Base64.PAD)) data).

(** * Properties *)

Lemma str_eqb_eq (a b : str) : str_eqb a b = true <-> a = b.
Proof.
  unfold str_eqb. destruct (list_eq_dec N.eq_dec a b); split; congruence.
Qed.


(** ** Stripping *)

Lemma lstrip_split (p : char -> bool) (s : str) :
  exists pre, s = pre ++ lstrip p s /\ forallb p pre = true.
Proof.
  induction s as [|c s IH]; simpl.
  - exists []. split; reflexivity.
  - destruct (p c) eqn:Hc.
    + destruct IH as [pre [E F]]. exists (c :: pre). simpl.
      rewrite Hc, F. split; [congruence | reflexivity].
    + exists []. split; reflexivity.
Qed.

Lemma lstrip_starts (p : char -> bool) (s : str) :
  starts_with p (lstrip p s) = false.
Proof.
  induction s as [|c s IH]; simpl; [reflexivity|].
  destruct (p c) eqn:Hc; [exact IH | simpl; exact Hc].
Qed.

Lemma lstrip_id (p : char -> bool) (s : str) :
  starts_with p s = false -> lstrip p s = s.
Proof.
  destruct s as [|c s]; simpl; [reflexivity|]. now intros ->.
Qed.

Lemma rstrip_split (p : char -> bool) (s : str) :
  exists post, s = rstrip p s ++ post /\ forallb p post = true.
Proof.
  unfold rstrip. destruct (lstrip_split p (rev s)) as [pre [E F]].
  exists (rev pre). split.
  - rewrite <- rev_app_distr, <- E. now rewrite rev_involutive.
  - rewrite forallb_forall in *. intros x Hx. apply F. now apply in_rev.
Qed.

Lemma rstrip_ends (p : char -> bool) (s : str) :
  ends_with p (rstrip p s) = false.
Proof.
  unfold ends_with, rstrip. rewrite rev_involutive. apply lstrip_starts.
Qed.

Lemma rstrip_id (p : char -> bool) (s : str) :
  ends_with p s = false -> rstrip p s = s.
Proof.
  unfold ends_with, rstrip. intros H. rewrite (lstrip_id _ _ H).
  apply rev_involutive.
Qed.

Lemma rstrip_keeps_start (p : char -> bool) (s : str) :
  starts_with p s = false -> starts_with p (rstrip p s) = false.
Proof.
  intros H. destruct (rstrip_split p s) as [post [E _]].
  destruct (rstrip p s) as [|c r] eqn:R; [reflexivity|].
  rewrite E in H. exact H.
Qed.

(** What one [strip] removes: a run of [p]-characters at each end, as long as
    it can be. *)
Lemma strip_split (p : char -> bool) (s : str) :
  exists pre post,
    s = pre ++ strip p s ++ post
    /\ forallb p pre = true /\ forallb p post = true
    /\ starts_with p (strip p s) = false
    /\ ends_with p (strip p s) = false.
Proof.
  unfold strip.
  destruct (lstrip_split p s) as [pre [E F]].
  destruct (rstrip_split p (lstrip p s)) as [post [E' F']].
  exists pre, post. repeat split; auto.
  - rewrite <- E'. exact E.
  - apply rstrip_keeps_start, lstrip_starts.
  - apply rstrip_ends.
Qed.

Lemma strip_id (p : char -> bool) (s : str) :
  starts_with p s = false -> ends_with p s = false -> strip p s = s.
Proof.
  intros H1 H2. unfold strip. rewrite (lstrip_id _ _ H1). now apply rstrip_id.
Qed.

(** C9, as stated, fails: of two layers of quotes both are removed, and a
    single unmatched quote is removed as well. *)
Lemma trim_removes_every_quote_layer :
  trim (lit "''abc''") = lit "abc"
  /\ trim_one_layer (lit "''abc''") = lit "'abc'"
  /\ trim (lit "'abc") = lit "abc"
  /\ trim_one_layer (lit "'abc") = lit "'abc"
  /\ ~ (forall blob, trim blob = trim_one_layer blob).
Proof.
  repeat split; try reflexivity.
  intros H. specialize (H (lit "'abc")). discriminate H.
Qed.

(** C9, amended: [trim] removes a run of whitespace at each end, then a run of
    double quotes at each end, then a run of single quotes at each end, each
    run as long as it can be and whether or not the two ends match; what is
    between is kept as it is. *)
Theorem trim_removes_runs (blob : str) :
  exists w1 d1 q1 q2 d2 w2,
    blob = w1 ++ d1 ++ q1 ++ trim blob ++ q2 ++ d2 ++ w2
    /\ forallb isspace w1 = true /\ forallb isspace w2 = true
    /\ forallb (one_of [DQUOTE]) d1 = true /\ forallb (one_of [DQUOTE]) d2 = true
    /\ forallb (one_of [SQUOTE]) q1 = true /\ forallb (one_of [SQUOTE]) q2 = true
    /\ starts_with isspace (d1 ++ q1 ++ trim blob ++ q2 ++ d2) = false
    /\ ends_with isspace (d1 ++ q1 ++ trim blob ++ q2 ++ d2) = false
    /\ starts_with (one_of [DQUOTE]) (q1 ++ trim blob ++ q2) = false
    /\ ends_with (one_of [DQUOTE]) (q1 ++ trim blob ++ q2) = false
    /\ starts_with (one_of [SQUOTE]) (trim blob) = false
    /\ ends_with (one_of [SQUOTE]) (trim blob) = false.
Proof.
  unfold trim.
  destruct (strip_split isspace blob) as [w1 [w2 [E1 [W1 [W2 [S1 S1']]]]]].
  set (b1 := strip isspace blob) in *.
  destruct (strip_split (one_of [DQUOTE]) b1) as [d1 [d2 [E2 [D1 [D2 [S2 S2']]]]]].
  set (b2 := strip (one_of [DQUOTE]) b1) in *.
  destruct (strip_split (one_of [SQUOTE]) b2) as [q1 [q2 [E3 [Q1 [Q2 [S3 S3']]]]]].
  set (b3 := strip (one_of [SQUOTE]) b2) in *.
  exists w1, d1, q1, q2, d2, w2.
  assert (Eb2 : q1 ++ b3 ++ q2 = b2) by (symmetry; exact E3).
  assert (Eb1 : d1 ++ q1 ++ b3 ++ q2 ++ d2 = b1).
  { rewrite E2 at 1. rewrite <- Eb2. now rewrite <- !app_assoc. }
  repeat split; auto.
  - rewrite E1 at 1. rewrite <- Eb1. now rewrite <- !app_assoc.
  - now rewrite Eb1.
  - now rewrite Eb1.
  - now rewrite Eb2.
  - now rewrite Eb2.
Qed.

(** ** The Splitter: candidates *)

Lemma fold_guess_suffix (b : str) (lens : list nat) (acc : list candidate) :
  fold_left (guess_suffix b) lens acc = acc ++ flat_map (suffix_guess b) lens.
Proof.
  revert acc. induction lens as [|k lens IH]; intros acc; simpl.
  - now rewrite app_nil_r.
  - rewrite IH. unfold guess_suffix, suffix_guess, slice_from, slice_to.
    destruct (length b <=? k + 10); simpl.
    + reflexivity.
    + now rewrite <- app_assoc.
Qed.

Lemma suffix_candidates_flat_map (b : str) :
  suffix_candidates b = flat_map (suffix_guess b) key_lens.
Proof. unfold suffix_candidates. now rewrite fold_guess_suffix. Qed.

Lemma suffix_guess_partition (b : str) (k : nat) (c : candidate) :
  In c (suffix_guess b k) ->
  length b > k + 10
  /\ c = (skipn (length b - k) b, firstn (length b - k) b)
  /\ length (fst c) = k /\ length (snd c) = length b - k.
Proof.
  unfold suffix_guess. destruct (length b <=? k + 10) eqn:E; simpl.
  - tauto.
  - apply Nat.leb_gt in E. intros [<- | []]. simpl.
    rewrite length_skipn, length_firstn. repeat split; lia.
Qed.

Lemma rfind_from_absent (c : char) (s : str) (i best : Z) :
  ~ In c s -> rfind_from c s i best = best.
Proof.
  revert i best. induction s as [|x s IH]; intros i best H; simpl.
  - reflexivity.
  - destruct (N.eqb_spec x c) as [->|Hx].
    + exfalso. apply H. now left.
    + apply IH. intros Hin. apply H. now right.
Qed.

Lemma rfind_from_last (c : char) (pre post : str) (i best : Z) :
  ~ In c post ->
  rfind_from c (pre ++ c :: post) i best = (i + Z.of_nat (length pre))%Z.
Proof.
  intros H. revert i best. induction pre as [|x pre IH]; intros i best.
  - simpl. rewrite N.eqb_refl. rewrite rfind_from_absent by exact H. lia.
  - simpl app. simpl rfind_from. rewrite IH. simpl length. lia.
Qed.

Lemma last_occurrence (c : char) (s : str) :
  In c s -> exists pre post, s = pre ++ c :: post /\ ~ In c post.
Proof.
  induction s as [|x s IH]; intros H; [destruct H|].
  destruct (in_dec N.eq_dec c s) as [Hin|Hout].
  - destruct (IH Hin) as [pre [post [E Hp]]].
    exists (x :: pre), post. split; [simpl; congruence | exact Hp].
  - destruct H as [->|H]; [|contradiction].
    exists [], s. split; [reflexivity | exact Hout].
Qed.

Lemma rfind_absent (c : char) (s : str) : ~ In c s -> rfind c s = (-1)%Z.
Proof. apply rfind_from_absent. Qed.

Lemma rfind_last (c : char) (pre post : str) :
  ~ In c post -> rfind c (pre ++ c :: post) = Z.of_nat (length pre).
Proof. intros H. unfold rfind. now rewrite rfind_from_last. Qed.

(** The split on the last [=] of [pre ++ "=" ++ post]. *)
Lemma insert_delimiter_at (pre post : str) (cs : list candidate) :
  ~ In EQUALS post ->
  insert_delimiter (pre ++ EQUALS :: post) cs =
    if (18 <=? length post) && (length post <=? 30)
    then (post, pre ++ [EQUALS]) :: cs
    else cs.
Proof.
  intros H. unfold insert_delimiter, slice_from, slice_to.
  rewrite (rfind_last _ pre _ H).
  replace (Z.to_nat (Z.of_nat (length pre) + 1)) with (S (length pre)) by lia.
  assert (Hs : skipn (S (length pre)) (pre ++ EQUALS :: post) = post).
  { replace (pre ++ EQUALS :: post) with ((pre ++ [EQUALS]) ++ post)
      by (now rewrite <- app_assoc).
    rewrite skipn_app.
    replace (S (length pre) - length (pre ++ [EQUALS])) with 0
      by (rewrite length_app; cbn [length]; lia).
    rewrite skipn_all2 by (rewrite length_app; cbn [length]; lia). reflexivity. }
  assert (Hf : firstn (S (length pre)) (pre ++ EQUALS :: post) = pre ++ [EQUALS]).
  { replace (pre ++ EQUALS :: post) with ((pre ++ [EQUALS]) ++ post)
      by (now rewrite <- app_assoc).
    rewrite firstn_app.
    replace (S (length pre) - length (pre ++ [EQUALS])) with 0
      by (rewrite length_app; cbn [length]; lia).
    rewrite firstn_all2 by (rewrite length_app; cbn [length]; lia).
    simpl. now rewrite app_nil_r. }
  rewrite Hs, Hf. rewrite length_app. simpl length.
  destruct ((18 <=? length post) && (length post <=? 30)) eqn:E.
  - apply andb_prop in E. destruct E as [E1 E2].
    apply Nat.leb_le in E1.
    assert ((Z.of_nat (length pre) =? -1)%Z = false) as ->
      by (apply Z.eqb_neq; lia).
    assert ((Z.of_nat (length pre)
             <? Z.of_nat (length pre + S (length post)) - 5)%Z = true) as ->
      by (apply Z.ltb_lt; lia).
    reflexivity.
  - now destruct (negb _ && _).
Qed.

Lemma insert_delimiter_absent (b : str) (cs : list candidate) :
  ~ In EQUALS b -> insert_delimiter b cs = cs.
Proof.
  intros H. unfold insert_delimiter. now rewrite (rfind_absent _ _ H).
Qed.

(** Every candidate cuts the blob in two: the ciphertext first, the key
    material last. *)
Lemma candidates_partition (b : str) (c : candidate) :
  In c (candidates_of b) -> snd c ++ fst c = b.
Proof.
  unfold candidates_of. intros H.
  assert (Hsuf : forall c, In c (suffix_candidates b) -> snd c ++ fst c = b).
  { intros c0 H0. rewrite suffix_candidates_flat_map in H0.
    apply in_flat_map in H0. destruct H0 as [k [_ Hk]].
    apply suffix_guess_partition in Hk. destruct Hk as [_ [-> _]].
    simpl. apply firstn_skipn. }
  destruct (in_dec N.eq_dec EQUALS b) as [Hin|Hout].
  - destruct (last_occurrence _ _ Hin) as [pre [post [E Hp]]].
    rewrite E in H at 1. rewrite (insert_delimiter_at pre post _ Hp) in H.
    destruct (_ && _).
    + destruct H as [<- | H]; [|now apply Hsuf].
      simpl. rewrite E. now rewrite <- app_assoc.
    + now apply Hsuf.
  - rewrite (insert_delimiter_absent _ _ Hout) in H. now apply Hsuf.
Qed.

Lemma insert_delimiter_keeps (b : str) (cs : list candidate) (c : candidate) :
  In c cs -> In c (insert_delimiter b cs).
Proof.
  intros H. unfold insert_delimiter.
  destruct (negb _ && _); [|exact H].
  destruct (_ && _); [now right | exact H].
Qed.

(** ** The Splitter: validation *)

Lemma validate_first (cs : list candidate) (errors : list attempt)
    (c : candidate) :
  validate cs errors = Ok c <-> first_decodable cs c.
Proof.
  revert errors. induction cs as [|[k e] cs IH]; intros errors; simpl.
  - split; intros H; [discriminate | inversion H].
  - destruct (b64decode_loose e) as [raw|err] eqn:D.
    + split; intros H.
      * injection H as <-. now apply first_here with raw.
      * inversion H; subst; simpl in *; [reflexivity | congruence].
    + rewrite IH. split; intros H.
      * now apply first_later with err.
      * inversion H; subst; simpl in *; [congruence | assumption].
Qed.

Lemma validate_fails (cs : list candidate) (errors : list attempt) :
  (exists attempts, validate cs errors = Err (SplitFailed attempts))
  <-> Forall (fun c => exists e, b64decode_loose (snd c) = Err e) cs.
Proof.
  revert errors. induction cs as [|[k e] cs IH]; intros errors; simpl.
  - split; [constructor | eauto].
  - destruct (b64decode_loose e) as [raw|err] eqn:D.
    + split.
      * intros [a H]. discriminate.
      * intros H. inversion H as [|? ? [e' He'] ?]; subst. simpl in He'.
        congruence.
    + rewrite IH. split.
      * intros H. constructor; [simpl; eauto | exact H].
      * intros H. now inversion H.
Qed.

Lemma validate_error (cs : list candidate) (errors : list attempt) (e : error) :
  validate cs errors = Err e -> exists attempts, e = SplitFailed attempts.
Proof.
  revert errors. induction cs as [|[k enc] cs IH]; intros errors; simpl.
  - intros [= <-]. eauto.
  - destruct (b64decode_loose enc); [discriminate | apply IH].
Qed.

Lemma first_decodable_in (cs : list candidate) (c : candidate) :
  first_decodable cs c ->
  In c cs /\ exists raw, b64decode_loose (snd c) = Ok raw.
Proof.
  induction 1 as [c rest raw H | c' rest c e H _ [IH1 IH2]].
  - split; [now left | eauto].
  - split; [now right | exact IH2].
Qed.

(** C2. The candidates of the trimmed blob are the split on the last [=],
    when it qualifies, followed by the suffix guesses of the key lengths 21,
    22, 20 and 23 in this order; the Splitter returns the first candidate
    whose ciphertext half decodes under [b64decode_loose], and fails when
    there is none. *)
Theorem splitter_order (blob : str) :
  let b := trim blob in
  (forall c, delimiter_split b c ->
     candidates_of b = c :: flat_map (suffix_guess b) [21; 22; 20; 23])
  /\ ((forall c, ~ delimiter_split b c) ->
     candidates_of b = flat_map (suffix_guess b) [21; 22; 20; 23])
  /\ (forall c, split_blob_guess blob = Ok c
                <-> first_decodable (candidates_of b) c)
  /\ ((exists attempts, split_blob_guess blob = Err (SplitFailed attempts))
      <-> Forall (fun c => exists e, b64decode_loose (snd c) = Err e)
            (candidates_of b)).
Proof.
  intros b. repeat split.
  - intros c Hc. destruct Hc as [pre post E Hp H5 [H18 H30]].
    unfold candidates_of. rewrite E at 1.
    rewrite (insert_delimiter_at pre post _ Hp).
    apply Nat.leb_le in H18, H30. rewrite H18, H30. simpl andb. cbv iota.
    now rewrite suffix_candidates_flat_map.
  - intros Hno. unfold candidates_of. rewrite suffix_candidates_flat_map.
    destruct (in_dec N.eq_dec EQUALS b) as [Hin|Hout].
    + destruct (last_occurrence _ _ Hin) as [pre [post [E Hp]]].
      rewrite E at 1. rewrite (insert_delimiter_at pre post _ Hp).
      destruct ((18 <=? length post) && (length post <=? 30)) eqn:C;
        [|reflexivity].
      apply andb_prop in C. destruct C as [C1 C2].
      apply Nat.leb_le in C1, C2.
      exfalso. apply (Hno (post, pre ++ [EQUALS])).
      apply delimiter_split_at; auto; lia.
    + now rewrite (insert_delimiter_absent _ _ Hout).
  - unfold split_blob_guess. apply validate_first.
  - unfold split_blob_guess. apply validate_first.
  - unfold split_blob_guess. apply validate_fails.
  - unfold split_blob_guess. apply validate_fails.
Qed.

Lemma splitter_order_witness :
  candidates_of (trim (lit " QUJDQUJDQUJDQUJDQQ==abcdefghijklmnopqrstu "))
  = (lit "abcdefghijklmnopqrstu", lit "QUJDQUJDQUJDQUJDQQ==")
    :: flat_map
         (suffix_guess (trim (lit " QUJDQUJDQUJDQUJDQQ==abcdefghijklmnopqrstu ")))
         [21; 22; 20; 23].
Proof.
  apply (proj1 (splitter_order
                  (lit " QUJDQUJDQUJDQUJDQQ==abcdefghijklmnopqrstu "))).
  apply (delimiter_split_at _ (lit "QUJDQUJDQUJDQUJDQQ=")
           (lit "abcdefghijklmnopqrstu")).
  - reflexivity.
  - simpl. intros H. repeat (destruct H as [H|H]; [discriminate H|]). exact H.
  - simpl. lia.
  - simpl. lia.
Defined.

(** C4. For a key length [k] of the list and a trimmed blob of length
    [L > k + 10], the suffix guess [(blob[L-k:], blob[:L-k])] is among the
    candidates, with [L - k] and [k] characters; with [L <= k + 10] no suffix
    guess has a key of [k] characters. *)
Theorem suffix_candidate_lengths (blob : str) (k : nat) :
  In k key_lens ->
  let b := trim blob in
  let L := length b in
  let enc_b64 := firstn (L - k) b in
  let key_str := skipn (L - k) b in
  (k + 10 < L ->
     In (key_str, enc_b64) (suffix_candidates b)
     /\ In (key_str, enc_b64) (candidates_of b)
     /\ length enc_b64 = L - k /\ length key_str = k)
  /\ (L <= k + 10 ->
      forall c, In c (suffix_candidates b) -> length (fst c) <> k).
Proof.
  intros Hk b L enc_b64 key_str. split.
  - intros HL.
    assert (Hin : In (key_str, enc_b64) (suffix_candidates b)).
    { rewrite suffix_candidates_flat_map. apply in_flat_map. exists k.
      split; [exact Hk|]. unfold suffix_guess. fold L.
      destruct (Nat.leb_spec L (k + 10)); [lia | now left]. }
    split; [exact Hin|]. split.
    + unfold candidates_of. now apply insert_delimiter_keeps.
    + unfold enc_b64, key_str. rewrite length_firstn, length_skipn.
      fold L. lia.
  - intros HL c Hc Hlen. rewrite suffix_candidates_flat_map in Hc.
    apply in_flat_map in Hc. destruct Hc as [k' [_ Hc]].
    apply suffix_guess_partition in Hc. fold L in Hc.
    destruct Hc as [Hgt [_ [Hfst _]]]. lia.
Qed.

Lemma suffix_candidate_lengths_witness :
  In 21 key_lens
  /\ In (lit "abcdefghijklmnopqrstu", lit "QUJDQUJDQUJDQUJD")
       (candidates_of (lit "QUJDQUJDQUJDQUJDabcdefghijklmnopqrstu")).
Proof.
  split; [simpl; tauto|].
  apply (suffix_candidate_lengths
           (lit "  'QUJDQUJDQUJDQUJDabcdefghijklmnopqrstu'  ") 21);
    [simpl; tauto | vm_compute; lia].
Defined.

(** C10. A pair returned by [split_blob_guess] cuts the trimmed blob in two:
    the encoded ciphertext followed by the key material is the trimmed
    blob. *)
Theorem split_partitions_trimmed_blob (blob key_str enc_b64 : str) :
  split_blob_guess blob = Ok (key_str, enc_b64) ->
  enc_b64 ++ key_str = trim blob.
Proof.
  intros H. apply (proj1 (validate_first _ _ _)) in H.
  apply first_decodable_in in H. destruct H as [H _].
  apply (candidates_partition (trim blob) (key_str, enc_b64) H).
Qed.

Lemma split_partitions_trimmed_blob_witness :
  split_blob_guess (lit " 'QUJDQUJDQUJDQUJDQQ==abcdefghijklmnopqrstu' ")
    = Ok (lit "abcdefghijklmnopqrstu", lit "QUJDQUJDQUJDQUJDQQ==")
  /\ lit "QUJDQUJDQUJDQUJDQQ==" ++ lit "abcdefghijklmnopqrstu"
     = trim (lit " 'QUJDQUJDQUJDQUJDQQ==abcdefghijklmnopqrstu' ").
Proof.
  split; [reflexivity|].
  apply (split_partitions_trimmed_blob
           (lit " 'QUJDQUJDQUJDQUJDQQ==abcdefghijklmnopqrstu' ")).
  reflexivity.
Defined.

(** ** Bytes and bounded enumeration *)

Lemma byte_of_N_to_N (b : byte) : byte_of_N (Byte.to_N b) = b.
Proof.
  unfold byte_of_N. pose proof (Byte.to_N_bounded b) as Hb.
  rewrite N.mod_small by lia. now rewrite Byte.of_to_N.
Qed.

Lemma to_N_byte_of_N (n : N) : (n < 256)%N -> Byte.to_N (byte_of_N n) = n.
Proof.
  intros H. unfold byte_of_N. rewrite N.mod_small by exact H.
  destruct (Byte.of_N n) as [b|] eqn:E.
  - now apply Byte.to_of_N.
  - apply Byte.of_N_None_iff in E. lia.
Qed.

Lemma below_forall (n : nat) (f : N -> bool) :
  forallb f (below n) = true -> forall v, (v < N.of_nat n)%N -> f v = true.
Proof.
  intros H v Hv. rewrite forallb_forall in H. apply H.
  unfold below. apply in_map_iff. exists (N.to_nat v).
  split; [lia|]. apply in_seq. lia.
Qed.

Lemma forall_byte (f : byte -> bool) :
  forallb (fun n => f (byte_of_N n)) (below 256) = true ->
  forall b, f b = true.
Proof.
  intros H b. rewrite <- (byte_of_N_to_N b).
  apply (below_forall 256 (fun n => f (byte_of_N n)) H).
  pose proof (Byte.to_N_bounded b). lia.
Qed.

Lemma forall_byte2 (f : byte -> byte -> bool) :
  forallb (fun n => forallb (fun m => f (byte_of_N n) (byte_of_N m)) (below 256))
    (below 256) = true ->
  forall a b, f a b = true.
Proof.
  intros H a. apply forall_byte.
  rewrite <- (byte_of_N_to_N a).
  apply (below_forall 256
           (fun n => forallb (fun m => f (byte_of_N n) (byte_of_N m)) (below 256))
           H).
  pose proof (Byte.to_N_bounded a). lia.
Qed.

Lemma list_ind3 {T : Type} (P : list T -> Prop) :
  P [] ->
  (forall a, P [a]) ->
  (forall a b, P [a; b]) ->
  (forall a b c l, P l -> P (a :: b :: c :: l)) ->
  forall l, P l.
Proof.
  intros H0 H1 H2 H3. fix IH 1.
  intros [|a [|b [|c l]]]; [exact H0 | apply H1 | apply H2 | apply H3, IH].
Qed.

(** ** base64: the alphabet and the groups *)

Module Base64Facts.
Import Base64 Base64Spec.

Lemma alphabet_roundtrip (v : N) :
  (v < 64)%N ->
  Byte.eqb (table_b2a_base64 v) PAD = false
  /\ table_a2b_base64 (table_b2a_base64 v) = v.
Proof.
  intros Hv.
  assert (H : alphabet_ok v = true).
  { apply (below_forall 64 alphabet_ok); [vm_compute; reflexivity | exact Hv]. }
  unfold alphabet_ok in H. apply andb_prop in H. destruct H as [H1 H2].
  split; [now apply negb_true_iff | now apply N.eqb_eq].
Qed.

(** One data character of the alphabet through the loop. *)
Lemma a2b_loop_sextet (v : N) (rest : bytes) (quad_pos : nat) (leftchar : N)
    (pads : nat) (bin : bytes) :
  (v < 64)%N ->
  a2b_loop (table_b2a_base64 v :: rest) quad_pos leftchar pads bin =
  match quad_pos with
  | 0 => a2b_loop rest 1 v 0 bin
  | 1 =>
      a2b_loop rest 2 (N.land v 15) 0
        (bin ++ [byte_of_N (N.lor (N.shiftl leftchar 2) (N.shiftr v 4))])
  | 2 =>
      a2b_loop rest 3 (N.land v 3) 0
        (bin ++ [byte_of_N (N.lor (N.shiftl leftchar 4) (N.shiftr v 2))])
  | _ =>
      a2b_loop rest 0 0 0 (bin ++ [byte_of_N (N.lor (N.shiftl leftchar 6) v)])
  end.
Proof.
  intros Hv. destruct (alphabet_roundtrip v Hv) as [Hp Ht].
  cbn [a2b_loop]. rewrite Hp. cbv zeta. rewrite Ht.
  assert ((64 <=? v)%N = false) as -> by (apply N.leb_gt; exact Hv).
  reflexivity.
Qed.

Lemma pair01 (b0 b1 : byte) : pair01_ok b0 b1 = true.
Proof. apply forall_byte2. vm_compute. reflexivity. Qed.

Lemma pair12 (b1 b2 : byte) : pair12_ok b1 b2 = true.
Proof. apply forall_byte2. vm_compute. reflexivity. Qed.

End Base64Facts.

Module Base64Roundtrip.
Import Base64 Base64Spec Base64Facts.

Ltac split_andb H :=
  repeat match type of H with
         | (_ && _ = true) =>
             let H1 := fresh H in
             apply andb_prop in H; destruct H as [H1 H]; split_andb H1
         end.

Ltac bool_to_prop :=
  repeat match goal with
         | H : (_ <? _)%N = true |- _ => apply N.ltb_lt in H
         | H : (_ =? _)%N = true |- _ => apply N.eqb_eq in H
         | H : Byte.eqb _ _ = true |- _ => apply Byte.byte_dec_bl in H
         end.

(** The decoder undoes the encoder, from any output written so far. *)
Lemma a2b_loop_b64encode (b : bytes) :
  forall bin, a2b_loop (b64encode b) 0 0 0 bin = Ok (bin ++ b).
Proof.
  induction b as [|b0|b0 b1|b0 b1 b2 rest IH] using list_ind3; intros bin.
  - simpl. now rewrite app_nil_r.
  - pose proof (pair01 b0 b0) as H. unfold pair01_ok in H.
    split_andb H. bool_to_prop.
    cbn [b64encode]. fold (sextet0 b0). fold (sextet1_last b0).
    rewrite !a2b_loop_sextet by assumption.
    rewrite H. reflexivity.
  - pose proof (pair01 b0 b1) as H. pose proof (pair12 b1 b1) as G.
    unfold pair01_ok in H. unfold pair12_ok in G.
    split_andb H. split_andb G. bool_to_prop.
    cbn [b64encode]. fold (sextet0 b0). fold (sextet1 b0 b1).
    fold (sextet2_last b1).
    rewrite !a2b_loop_sextet by assumption.
    match goal with E : N.land (sextet1 b0 b1) 15 = _ |- _ => rewrite E end.
    match goal with
    | E : byte_of_N (N.lor (N.shiftl (sextet0 b0) 2)
                           (N.shiftr (sextet1 b0 b1) 4)) = b0 |- _ => rewrite E
    end.
    match goal with
    | E : byte_of_N (N.lor _ (N.shiftr (sextet2_last b1) 2)) = b1 |- _ =>
        rewrite E
    end.
    cbn. now rewrite <- app_assoc.
  - pose proof (pair01 b0 b1) as H. pose proof (pair12 b1 b2) as G.
    unfold pair01_ok in H. unfold pair12_ok in G.
    split_andb H. split_andb G. bool_to_prop.
    cbn [b64encode]. fold (sextet0 b0). fold (sextet1 b0 b1).
    fold (sextet2 b1 b2). fold (sextet3 b2).
    rewrite !a2b_loop_sextet by assumption.
    match goal with E : N.land (sextet1 b0 b1) 15 = _ |- _ => rewrite E end.
    match goal with E : N.land (sextet2 b1 b2) 3 = _ |- _ => rewrite E end.
    match goal with
    | E : byte_of_N (N.lor (N.shiftl (sextet0 b0) 2)
                           (N.shiftr (sextet1 b0 b1) 4)) = b0 |- _ => rewrite E
    end.
    match goal with
    | E : byte_of_N (N.lor _ (N.shiftr (sextet2 b1 b2) 2)) = b1 |- _ =>
        rewrite E
    end.
    match goal with
    | E : byte_of_N (N.lor _ (sextet3 b2)) = b2 |- _ => rewrite E
    end.
    rewrite IH. now rewrite <- !app_assoc.
Qed.

Lemma a2b_base64_b64encode (b : bytes) : a2b_base64 (b64encode b) = Ok b.
Proof. unfold a2b_base64. now rewrite a2b_loop_b64encode. Qed.

End Base64Roundtrip.

(** ** The tolerant decoder *)

Lemma strip_none (p : char -> bool) (s : str) :
  forallb (fun c => negb (p c)) s = true -> strip p s = s.
Proof.
  intros H. rewrite forallb_forall in H. apply strip_id.
  - destruct s as [|c s]; [reflexivity|]. simpl.
    apply negb_true_iff, H. now left.
  - unfold ends_with. destruct (rev s) as [|c r] eqn:E; [reflexivity|]. simpl.
    apply negb_true_iff, H. apply in_rev. rewrite E. now left.
Qed.

Lemma replace_absent (old new : char) (s : str) :
  forallb (fun c => negb (N.eqb c old)) s = true -> replace old new s = s.
Proof.
  induction s as [|c s IH]; simpl; [reflexivity|].
  intros H. apply andb_prop in H. destruct H as [Hc Hs].
  apply negb_true_iff in Hc. rewrite Hc. now rewrite IH.
Qed.

Lemma length_replace (old new : char) (s : str) :
  length (replace old new s) = length s.
Proof. apply length_map. Qed.

Lemma encode_decode_ascii (b : bytes) :
  forallb (fun c => (Byte.to_N c <? 128)%N) b = true ->
  encode_ascii (decode_ascii b) = Some b.
Proof.
  induction b as [|c b IH]; simpl; [reflexivity|].
  intros H. apply andb_prop in H. destruct H as [Hc Hb].
  rewrite Hc, (IH Hb). now rewrite byte_of_N_to_N.
Qed.

Module LooseFacts.
Import Base64 Base64Spec Base64Facts Base64Roundtrip.

Lemma plain_alphabet (v : N) : (v < 64)%N -> plain (table_b2a_base64 v) = true.
Proof.
  apply (below_forall 64 (fun v => plain (table_b2a_base64 v))).
  vm_compute. reflexivity.
Qed.

Lemma plain_b64encode (b : bytes) : forallb plain (b64encode b) = true.
Proof.
  induction b as [|b0|b0 b1|b0 b1 b2 rest IH] using list_ind3.
  - reflexivity.
  - pose proof (pair01 b0 b0) as H. unfold pair01_ok in H.
    split_andb H. bool_to_prop.
    cbn [b64encode forallb]. fold (sextet0 b0). fold (sextet1_last b0).
    rewrite !plain_alphabet by assumption. reflexivity.
  - pose proof (pair01 b0 b1) as H. pose proof (pair12 b1 b1) as G.
    unfold pair01_ok in H. unfold pair12_ok in G.
    split_andb H. split_andb G. bool_to_prop.
    cbn [b64encode forallb]. fold (sextet0 b0). fold (sextet1 b0 b1).
    fold (sextet2_last b1).
    rewrite !plain_alphabet by assumption. reflexivity.
  - pose proof (pair01 b0 b1) as H. pose proof (pair12 b1 b2) as G.
    unfold pair01_ok in H. unfold pair12_ok in G.
    split_andb H. split_andb G. bool_to_prop.
    cbn [b64encode forallb]. fold (sextet0 b0). fold (sextet1 b0 b1).
    fold (sextet2 b1 b2). fold (sextet3 b2).
    rewrite !plain_alphabet by assumption. rewrite IH. reflexivity.
Qed.

Lemma length_b64encode (b : bytes) :
  length (b64encode b) = 4 * ((length b + 2) / 3).
Proof.
  induction b as [|b0|b0 b1|b0 b1 b2 rest IH] using list_ind3;
    try reflexivity.
  cbn [b64encode length]. rewrite IH.
  replace (S (S (S (length rest))) + 2) with (1 * 3 + (length rest + 2)) by lia.
  rewrite Nat.div_add_l by lia. lia.
Qed.

(** A pad character of an encoding is its last character. *)
Lemma b64encode_pad_last (b : bytes) :
  In PAD (b64encode b) -> exists pre, b64encode b = pre ++ [PAD].
Proof.
  induction b as [|b0|b0 b1|b0 b1 b2 rest IH] using list_ind3; intros H.
  - destruct H.
  - cbn [b64encode]. eexists [_; _; _]. reflexivity.
  - cbn [b64encode]. eexists [_; _; _]. reflexivity.
  - pose proof (pair01 b0 b1) as K. pose proof (pair12 b1 b2) as G.
    unfold pair01_ok in K. unfold pair12_ok in G.
    split_andb K. split_andb G. bool_to_prop.
    cbn [b64encode] in *. fold (sextet0 b0) in *. fold (sextet1 b0 b1) in *.
    fold (sextet2 b1 b2) in *. fold (sextet3 b2) in *.
    assert (Hne : forall v, (v < 64)%N -> table_b2a_base64 v <> PAD).
    { intros v Hv. apply Byte.eqb_false. now apply alphabet_roundtrip. }
    destruct H as [H|[H|[H|[H|H]]]];
      try (exfalso; revert H; apply Hne; assumption).
    destruct (IH H) as [pre E]. rewrite E.
    now exists (table_b2a_base64 (sextet0 b0)
                :: table_b2a_base64 (sextet1 b0 b1)
                :: table_b2a_base64 (sextet2 b1 b2)
                :: table_b2a_base64 (sextet3 b2) :: pre).
Qed.

Lemma forallb_decode_ascii (f : char -> bool) (b : bytes) :
  forallb f (decode_ascii b) = forallb (fun c => f (Byte.to_N c)) b.
Proof.
  unfold decode_ascii. induction b as [|c b IH]; simpl; [reflexivity|].
  now rewrite IH.
Qed.

Lemma forallb_weaken {T : Type} (f g : T -> bool) (l : list T) :
  (forall x, f x = true -> g x = true) ->
  forallb f l = true -> forallb g l = true.
Proof.
  intros Hfg H. rewrite forallb_forall in *. intros x Hx. now apply Hfg, H.
Qed.

(** A string of plain characters whose length is a multiple of four goes to
    the library decoder unchanged. *)
Lemma b64decode_loose_plain (enc : bytes) :
  forallb plain enc = true ->
  length enc mod 4 = 0 ->
  b64decode_loose (decode_ascii enc) = a2b_base64 enc.
Proof.
  intros Hp Hm. unfold b64decode_loose.
  assert (H1 : strip isspace (decode_ascii enc) = decode_ascii enc).
  { apply strip_none. rewrite forallb_decode_ascii.
    apply (forallb_weaken plain); [|exact Hp].
    intros c Hc. unfold plain in Hc. split_andb Hc.
    match goal with E : negb (isspace _) = true |- _ => exact E end. }
  rewrite H1.
  assert (H2 : replace (N_of_ascii "-") (N_of_ascii "+") (decode_ascii enc)
               = decode_ascii enc).
  { apply replace_absent. rewrite forallb_decode_ascii.
    apply (forallb_weaken plain); [|exact Hp].
    intros c Hc. unfold plain in Hc. split_andb Hc. assumption. }
  rewrite H2.
  assert (H3 : replace (N_of_ascii "_") (N_of_ascii "/") (decode_ascii enc)
               = decode_ascii enc).
  { apply replace_absent. rewrite forallb_decode_ascii.
    apply (forallb_weaken plain); [|exact Hp].
    intros c Hc. unfold plain in Hc. split_andb Hc. assumption. }
  rewrite H3.
  assert (H4 : length (decode_ascii enc) = length enc) by apply length_map.
  rewrite H4, Hm. cbn [Nat.eqb orb]. cbv zeta. unfold b64decode.
  rewrite encode_decode_ascii; [reflexivity|].
  apply (forallb_weaken plain); [|exact Hp].
  intros c Hc. unfold plain in Hc. split_andb Hc. assumption.
Qed.

Lemma a2b_loop_error (data : bytes) :
  forall quad_pos leftchar pads bin,
    a2b_loop data quad_pos leftchar pads bin <> Err InvalidLengthMod4
    /\ a2b_loop data quad_pos leftchar pads bin <> Err NonAsciiString.
Proof.
  induction data as [|c data IH]; intros quad_pos leftchar pads bin.
  - destruct quad_pos as [|[|q]]; simpl; split; discriminate.
  - cbn [a2b_loop]. destruct (Byte.eqb c PAD).
    + destruct (2 <=? quad_pos); [|apply IH].
      destruct (4 <=? quad_pos + S pads); [split; discriminate | apply IH].
    + cbv zeta. destruct (64 <=? table_a2b_base64 c)%N; [apply IH|].
      destruct quad_pos as [|[|[|q]]]; apply IH.
Qed.

Lemma to_standard_cons (c : char) (s : str) :
  to_standard (c :: s) = standard_char c :: to_standard s.
Proof. reflexivity. Qed.

Lemma data_char_ok_all (c : char) : data_char_ok c = true.
Proof.
  destruct (N.ltb_spec c 128) as [Hc|Hc].
  - revert c Hc. apply (below_forall 128 data_char_ok). vm_compute. reflexivity.
  - unfold data_char_ok.
    assert (data_char c = false) as ->; [|reflexivity].
    unfold data_char.
    repeat match goal with
           | |- context [(?a <=? ?b)%N] => destruct (N.leb_spec a b); try lia
           | |- context [(?a =? ?b)%N] => destruct (N.eqb_spec a b); try lia
           end; reflexivity.
Qed.

Lemma data_char_facts (c : char) :
  data_char c = true ->
  isspace c = false
  /\ (standard_char c <? 128)%N = true
  /\ data_byte (byte_of_N (standard_char c)) = true.
Proof.
  intros Hc. pose proof (data_char_ok_all c) as K. unfold data_char_ok in K.
  rewrite Hc in K. simpl implb in K.
  apply andb_prop in K. destruct K as [K K3].
  apply andb_prop in K. destruct K as [K1 K2].
  apply negb_true_iff in K1. auto.
Qed.

Lemma to_standard_app (s t : str) :
  to_standard (s ++ t) = to_standard s ++ to_standard t.
Proof. unfold to_standard, replace. now rewrite !map_app. Qed.

Lemma to_standard_pads (n : nat) :
  to_standard (repeat EQUALS n) = repeat EQUALS n.
Proof. induction n as [|n IH]; [reflexivity|]. simpl repeat. now rewrite <- IH at 2. Qed.

Lemma length_to_standard (s : str) : length (to_standard s) = length s.
Proof. unfold to_standard. now rewrite !length_replace. Qed.

Lemma encode_ascii_app (s t : str) (a b : bytes) :
  encode_ascii s = Some a -> encode_ascii t = Some b ->
  encode_ascii (s ++ t) = Some (a ++ b).
Proof.
  revert a. induction s as [|c s IH]; intros a; simpl.
  - now intros [= <-].
  - destruct (c <? 128)%N; [|discriminate].
    destruct (encode_ascii s) as [a'|]; [|discriminate].
    intros [= <-] Ht. now rewrite (IH a' eq_refl Ht).
Qed.

Lemma encode_ascii_pads (n : nat) :
  encode_ascii (repeat EQUALS n) = Some (repeat PAD n).
Proof. induction n as [|n IH]; [reflexivity|]. simpl. now rewrite IH. Qed.

Lemma encode_ascii_data (s : str) :
  forallb data_char s = true ->
  exists d, encode_ascii (to_standard s) = Some d
            /\ length d = length s /\ forallb data_byte d = true.
Proof.
  induction s as [|c s IH]; intros H.
  - exists []. repeat split.
  - simpl in H. apply andb_prop in H. destruct H as [Hc Hs].
    destruct (IH Hs) as [d [E [L F]]].
    destruct (data_char_facts c Hc) as [_ [K2 K3]].
    exists (byte_of_N (standard_char c) :: d).
    rewrite to_standard_cons. cbn [encode_ascii]. rewrite K2, E.
    repeat split; [simpl; lia | simpl; now rewrite K3, F].
Qed.

(** Data bytes move the position in the group of four forward, whatever the
    rest of the state. *)
Lemma a2b_loop_data (d rest : bytes) :
  forallb data_byte d = true ->
  forall quad_pos leftchar pads bin,
    quad_pos < 4 ->
    exists leftchar' pads' bin',
      a2b_loop (d ++ rest) quad_pos leftchar pads bin
      = a2b_loop rest ((quad_pos + length d) mod 4) leftchar' pads' bin'.
Proof.
  induction d as [|c d IH]; intros H quad_pos leftchar pads bin Hq.
  - exists leftchar, pads, bin. cbn [app length]. rewrite Nat.add_0_r.
    now rewrite Nat.mod_small by exact Hq.
  - simpl in H. apply andb_prop in H. destruct H as [Hc Hd].
    unfold data_byte in Hc. apply andb_prop in Hc. destruct Hc as [Hp Hv].
    apply negb_true_iff in Hp. apply N.ltb_lt in Hv.
    cbn [app a2b_loop]. rewrite Hp. cbv zeta.
    assert ((64 <=? table_a2b_base64 c)%N = false) as ->
      by (apply N.leb_gt; exact Hv).
    assert (Hstep : forall q, (S q mod 4 + length d) mod 4
                              = (q + length (c :: d)) mod 4).
    { intros q. rewrite Nat.Div0.add_mod_idemp_l. f_equal. simpl. lia. }
    destruct quad_pos as [|[|[|[|q]]]]; try lia.
    + rewrite <- (Hstep 0). apply (IH Hd). simpl. lia.
    + rewrite <- (Hstep 1). apply (IH Hd). simpl. lia.
    + rewrite <- (Hstep 2). apply (IH Hd). simpl. lia.
    + rewrite <- (Hstep 3). apply (IH Hd). simpl. lia.
Qed.

Lemma a2b_loop_pads_at_1 (n : nat) (leftchar : N) (pads : nat) (bin : bytes) :
  a2b_loop (repeat PAD n) 1 leftchar pads bin
  = Err (OneMoreThanMultipleOf4 (length bin / 3 * 4 + 1)).
Proof. induction n as [|n IH]; [reflexivity | exact IH]. Qed.

Lemma b64decode_loose_eq (s : str) :
  b64decode_loose s =
    let t := to_standard (strip isspace s) in
    if length t mod 4 =? 1 then Err InvalidLengthMod4
    else b64decode
           (if (length t mod 4 =? 2) || (length t mod 4 =? 3)
            then t ++ repeat EQUALS (4 - length t mod 4)
            else t).
Proof. reflexivity. Qed.

(** Data characters one more than a multiple of four, with any padding after
    them, are rejected: by the check of [b64decode_loose] or by the library
    decoder. *)
Lemma data_mod1_rejected (data : str) (n : nat) :
  forallb data_char data = true ->
  length data mod 4 = 1 ->
  exists e, b64decode_loose (data ++ repeat EQUALS n) = Err e.
Proof.
  intros Hd Hm. rewrite b64decode_loose_eq.
  assert (Hs : strip isspace (data ++ repeat EQUALS n) = data ++ repeat EQUALS n).
  { apply strip_none. rewrite forallb_app. apply andb_true_intro. split.
    - apply (forallb_weaken data_char); [|exact Hd].
      intros c Hc. destruct (data_char_facts c Hc) as [K _].
      now rewrite K.
    - clear. induction n as [|n IH]; [reflexivity | exact IH]. }
  rewrite Hs, to_standard_app, to_standard_pads.
  set (s := to_standard data ++ repeat EQUALS n). cbv zeta.
  destruct (length s mod 4 =? 1); [eauto|].
  destruct (encode_ascii_data data Hd) as [d [E [L F]]].
  match goal with
  | |- exists e, b64decode ?x = Err e =>
      assert (Hpad : exists m, x = to_standard data ++ repeat EQUALS m)
  end.
  { destruct (_ || _).
    - exists (n + (4 - length s mod 4)). unfold s.
      now rewrite <- app_assoc, repeat_app.
    - now exists n. }
  destruct Hpad as [m ->]. unfold b64decode.
  rewrite (encode_ascii_app _ _ _ _ E (encode_ascii_pads m)).
  unfold a2b_base64.
  destruct (a2b_loop_data d (repeat PAD m) F 0 0%N 0 [])
    as [lc [p [bin' ->]]]; [lia|].
  rewrite L. simpl Nat.add. rewrite Hm. rewrite a2b_loop_pads_at_1. eauto.
Qed.

Lemma b64decode_loose_standard (b : bytes) :
  b64decode_loose (decode_ascii (b64encode b)) = Ok b.
Proof.
  rewrite b64decode_loose_plain.
  - apply a2b_base64_b64encode.
  - apply plain_b64encode.
  - rewrite length_b64encode. rewrite Nat.mul_comm. apply Nat.Div0.mod_mul.
Qed.

Lemma explicit_error_iff (s : str) :
  b64decode_loose s = Err InvalidLengthMod4
  <-> length (strip isspace s) mod 4 = 1.
Proof.
  unfold b64decode_loose. rewrite !length_replace.
  destruct (Nat.eqb_spec (length (strip isspace s) mod 4) 1) as [E|E].
  - split; [intros _; exact E | reflexivity].
  - split; [|contradiction]. intros H. exfalso. revert H.
    cbv zeta. unfold b64decode.
    destruct (encode_ascii _); [|discriminate].
    apply a2b_loop_error.
Qed.

End LooseFacts.

(** C5. The tolerant decoder gives back the bytes whose standard base64
    encoding, with its padding, it is given. *)
Theorem b64decode_loose_b64encode (b : bytes) :
  b64decode_loose (decode_ascii (Base64.b64encode b)) = Ok b.
Proof.
  rewrite LooseFacts.b64decode_loose_plain.
  - apply Base64Roundtrip.a2b_base64_b64encode.
  - apply LooseFacts.plain_b64encode.
  - rewrite LooseFacts.length_b64encode, Nat.mul_comm.
    apply Nat.Div0.mod_mul.
Qed.

(** C6, as stated, fails: the padding-stripped length of this string is 5,
    and it decodes to three bytes. *)
Lemma padding_stripped_mod1_decodes :
  length (strip_padding (strip isspace (lit "AAA!A="))) mod 4 = 1
  /\ b64decode_loose (lit "AAA!A=") = Ok [x00; x00; x00]
  /\ ~ (forall s, length (strip_padding (strip isspace s)) mod 4 = 1 ->
                  exists e, b64decode_loose s = Err e).
Proof.
  split; [reflexivity|]. split; [reflexivity|].
  intros H. destruct (H (lit "AAA!A=") eq_refl) as [e He]. discriminate He.
Qed.

(** C6, amended: [b64decode_loose] raises its own error, before any padding
    is added, exactly when the length of the string stripped of surrounding
    whitespace, pad characters counted, is 1 modulo 4; and a string of data
    characters followed by pad characters is rejected, by this check or by
    the library decoder, when the number of its data characters is 1 modulo
    4. *)
Theorem b64decode_loose_rejects_mod1 (s : str) :
  (b64decode_loose s = Err InvalidLengthMod4
   <-> length (strip isspace s) mod 4 = 1)
  /\ (forall data n,
        s = data ++ repeat EQUALS n ->
        forallb Base64Spec.data_char data = true ->
        length data mod 4 = 1 ->
        exists e, b64decode_loose s = Err e).
Proof.
  split.
  - apply LooseFacts.explicit_error_iff.
  - intros data n -> Hd Hm. now apply LooseFacts.data_mod1_rejected.
Qed.

Lemma b64decode_loose_rejects_mod1_witness :
  (length (strip isspace (lit " QUJDR ")) mod 4 = 1
   /\ b64decode_loose (lit " QUJDR ") = Err InvalidLengthMod4)
  /\ (length (lit "QUJDR") mod 4 = 1
      /\ exists e, b64decode_loose (lit "QUJDR=") = Err e).
Proof.
  split; (split; [reflexivity|]).
  - apply (proj2 (proj1 (b64decode_loose_rejects_mod1 (lit " QUJDR ")))).
    reflexivity.
  - apply (proj2 (b64decode_loose_rejects_mod1 (lit "QUJDR=")) (lit "QUJDR") 1);
      reflexivity.
Defined.

(** ** The Locator *)

Lemma direct_pageprops_path (data : json) :
  direct_pageprops data = string_at [PAGEPROPS; A] data.
Proof.
  unfold direct_pageprops, string_at, dict_str_a. destruct data; try reflexivity.
  simpl. destruct (dict_get PAGEPROPS entries) as [[]|]; try reflexivity.
  destruct (dict_get A entries0) as [[]|]; reflexivity.
Qed.

Lemma direct_props_pageprops_path (data : json) :
  direct_props_pageprops data = string_at [PROPS; PAGEPROPS; A] data.
Proof.
  unfold direct_props_pageprops, string_at, dict_str_a.
  destruct data; try reflexivity.
  simpl. destruct (dict_get PROPS entries) as [[]|]; try reflexivity.
  destruct (dict_get PAGEPROPS entries0) as [[]|]; try reflexivity.
  destruct (dict_get A entries1) as [[]|]; reflexivity.
Qed.

Lemma dict_get_in (key : str) (entries : list (str * json)) (v : json) :
  dict_get key entries = Some v -> In (key, v) entries.
Proof.
  induction entries as [|[k w] entries IH]; simpl; [discriminate|].
  destruct (str_eqb k key) eqn:E.
  - apply str_eqb_eq in E. intros [= ->]. left. now rewrite E.
  - intros H. right. now apply IH.
Qed.

Lemma hd_error_app_flat_map {T U : Type} (f : T -> list U) (g : T -> option U)
    (l : list T) :
  Forall (fun x => g x = hd_error (f x)) l ->
  hd_error (flat_map f l)
  = (fix over (l : list T) : option U :=
       match l with
       | [] => None
       | x :: l' => match g x with Some got => Some got | None => over l' end
       end) l.
Proof.
  induction 1 as [|x l Hx _ IH]; [reflexivity|].
  simpl. rewrite Hx. destruct (f x) as [|u us]; simpl; [exact IH | reflexivity].
Qed.

(** The recursive search finds the first string of the depth-first order. *)
Lemma rec_depth_first (node : json) : rec node = hd_error (depth_first node).
Proof.
  induction node as [| | | | |items IH|entries IH] using json_ind;
    try reflexivity.
  - cbn [rec depth_first].
    now rewrite (hd_error_app_flat_map depth_first rec items IH).
  - cbn [rec depth_first].
    change (dict_str_a (dict_get PAGEPROPS entries))
      with (direct_pageprops (JDict entries)).
    rewrite direct_pageprops_path.
    destruct (string_at [PAGEPROPS; A] (JDict entries)) as [a|];
      [reflexivity|].
    cbn [option_list app].
    rewrite (hd_error_app_flat_map (fun e => depth_first (snd e))
               (fun e => rec (snd e)) entries IH).
    clear. induction entries as [|[k v] entries IH]; [reflexivity|].
    simpl. now rewrite IH.
Qed.

Lemma depth_first_reach (data : json) (s : str) :
  In s (depth_first data)
  <-> exists node, reach data node /\ string_at [PAGEPROPS; A] node = Some s.
Proof.
  split.
  - revert s.
    induction data as [|b|n|f|s0|items IH|entries IH] using json_ind;
      intros s H; try (destruct H).
    + cbn [depth_first] in H. apply in_flat_map in H.
      destruct H as [it [Hit Hs]].
      rewrite Forall_forall in IH. destruct (IH it Hit s Hs) as [node [R E]].
      exists node. split; [now apply reach_item with it | exact E].
    + cbn [depth_first] in H. apply in_app_or in H. destruct H as [H|H].
      * exists (JDict entries). split; [apply reach_here|].
        destruct (string_at [PAGEPROPS; A] (JDict entries)) as [a|];
          [|destruct H].
        destruct H as [->|[]]. reflexivity.
      * apply in_flat_map in H. destruct H as [[k v] [He Hs]].
        rewrite Forall_forall in IH.
        destruct (IH (k, v) He s Hs) as [node [R E]].
        exists node. split; [now apply reach_value with k v | exact E].
  - intros [node [R E]].
    induction R as [data|items it node Hin R IH|entries k v node Hin R IH].
    + destruct data; try discriminate E.
      cbn [depth_first]. apply in_or_app. left. rewrite E. now left.
    + cbn [depth_first]. apply in_flat_map. exists it. auto.
    + cbn [depth_first]. apply in_or_app. right.
      apply in_flat_map. exists (k, v). auto.
Qed.

Lemma props_pageprops_reach (data : json) (s : str) :
  string_at [PROPS; PAGEPROPS; A] data = Some s ->
  exists node, reach data node /\ string_at [PAGEPROPS; A] node = Some s.
Proof.
  unfold string_at. destruct data; try discriminate. cbn [at_path].
  destruct (dict_get PROPS entries) as [props|] eqn:E; [|discriminate].
  intros H. exists props. split; [|exact H].
  apply reach_value with PROPS props; [now apply dict_get_in | apply reach_here].
Qed.

(** C7. The Locator returns the string at [pageProps.a], else the string at
    [props.pageProps.a], else the first string at a nested [pageProps.a] in
    depth-first order; it returns [None] exactly when no node of the value
    has a string at [pageProps.a]. *)
Theorem locator_priority (data : json) :
  find_pageprops_a data
  = first_some (string_at [PAGEPROPS; A] data)
      (first_some (string_at [PROPS; PAGEPROPS; A] data)
         (hd_error (depth_first data)))
  /\ (forall s, In s (depth_first data)
                <-> exists node,
                      reach data node
                      /\ string_at [PAGEPROPS; A] node = Some s)
  /\ (find_pageprops_a data = None
      <-> forall node, reach data node ->
                       string_at [PAGEPROPS; A] node = None).
Proof.
  assert (Hfind : find_pageprops_a data
                  = first_some (string_at [PAGEPROPS; A] data)
                      (first_some (string_at [PROPS; PAGEPROPS; A] data)
                         (hd_error (depth_first data)))).
  { unfold find_pageprops_a, first_some.
    rewrite direct_pageprops_path, direct_props_pageprops_path.
    now rewrite rec_depth_first. }
  split; [exact Hfind|]. split; [apply depth_first_reach|].
  rewrite Hfind. unfold first_some. split.
  - intros H node R.
    destruct (string_at [PAGEPROPS; A] data) as [a|] eqn:E1; [discriminate|].
    destruct (string_at [PROPS; PAGEPROPS; A] data) as [a|] eqn:E2;
      [discriminate|].
    destruct (string_at [PAGEPROPS; A] node) as [s|] eqn:E; [|reflexivity].
    assert (Hin : In s (depth_first data))
      by (apply depth_first_reach; eauto).
    destruct (depth_first data); [destruct Hin | discriminate].
  - intros H.
    rewrite (H data (reach_here data)).
    destruct (string_at [PROPS; PAGEPROPS; A] data) as [a|] eqn:E2.
    + destruct (props_pageprops_reach data a E2) as [node [R E]].
      rewrite (H node R) in E. discriminate.
    + destruct (depth_first data) as [|s l] eqn:D; [reflexivity|].
      assert (Hin : In s (depth_first data)) by (rewrite D; now left).
      apply depth_first_reach in Hin. destruct Hin as [node [R E]].
      rewrite (H node R) in E. discriminate.
Qed.

Lemma locator_priority_witness :
  exists node,
    reach (JList [JInt 1; JDict [(PAGEPROPS, JDict [(A, JStr (lit "blob"))])]])
      node
    /\ string_at [PAGEPROPS; A] node = Some (lit "blob").
Proof.
  apply (proj1 (proj1 (proj2 (locator_priority
                                (JList [JInt 1;
                                        JDict [(PAGEPROPS,
                                                JDict [(A, JStr (lit "blob"))])]])))
                  (lit "blob"))).
  simpl. now left.
Defined.

(** ** Counter mode *)

Lemma from_bytes_big_acc (b : bytes) (acc : N) :
  (fold_left (fun a x => a * 256 + Byte.to_N x) b acc
   < (acc + 1) * 256 ^ N.of_nat (length b))%N.
Proof.
  revert acc. induction b as [|x b IH]; intros acc.
  - simpl. lia.
  - cbn [fold_left length]. specialize (IH (acc * 256 + Byte.to_N x)%N).
    pose proof (Byte.to_N_bounded x) as Hx.
    rewrite Nat2N.inj_succ, N.pow_succ_r'.
    eapply N.lt_le_trans; [exact IH|].
    replace ((acc + 1) * (256 * 256 ^ N.of_nat (length b)))%N
      with (((acc + 1) * 256) * 256 ^ N.of_nat (length b))%N by lia.
    apply N.mul_le_mono_r. lia.
Qed.

Lemma from_bytes_big_bound (b : bytes) :
  (from_bytes_big b < 256 ^ N.of_nat (length b))%N.
Proof.
  unfold from_bytes_big. pose proof (from_bytes_big_acc b 0) as H.
  now rewrite N.add_0_l, N.mul_1_l in H.
Qed.

Lemma length_to_bytes_big (len : nat) (n : N) :
  length (to_bytes_big len n) = len.
Proof.
  revert n. induction len as [|len IH]; intros n; [reflexivity|].
  cbn [to_bytes_big]. rewrite length_app, IH. simpl. lia.
Qed.

Lemma xor_byte_twice (x y : byte) :
  byte_of_N
    (N.lxor (Byte.to_N (byte_of_N (N.lxor (Byte.to_N x) (Byte.to_N y))))
       (Byte.to_N y)) = x.
Proof.
  apply Byte.byte_dec_bl. revert x y. apply forall_byte2.
  vm_compute. reflexivity.
Qed.

Lemma length_xor_bytes (a b : bytes) :
  length a <= length b -> length (xor_bytes a b) = length a.
Proof.
  intros H. unfold xor_bytes. rewrite length_map, length_combine. lia.
Qed.

(** Applying the same key stream twice gives the data back. *)
Lemma xor_bytes_twice (a ks : bytes) :
  length a <= length ks -> xor_bytes (xor_bytes a ks) ks = a.
Proof.
  revert ks. induction a as [|x a IH]; intros ks H; [reflexivity|].
  destruct ks as [|y ks]; [simpl in H; lia|].
  unfold xor_bytes in *. cbn [combine List.map fst snd].
  rewrite xor_byte_twice. f_equal. apply IH. simpl in H. lia.
Qed.

Lemma xor_bytes_longer (a ks extra : bytes) :
  length a <= length ks -> xor_bytes a (ks ++ extra) = xor_bytes a ks.
Proof.
  revert ks. induction a as [|x a IH]; intros ks H; [reflexivity|].
  destruct ks as [|y ks]; [simpl in H; lia|].
  unfold xor_bytes in *. cbn [app combine List.map]. f_equal.
  apply IH. simpl in H. lia.
Qed.

Lemma flat_map_shift {T : Type} (f : nat -> list T) (l : list nat) :
  flat_map f (List.map S l) = flat_map (fun i => f (S i)) l.
Proof. induction l as [|x l IH]; simpl; [reflexivity | now rewrite IH]. Qed.

Section DecryptorProperties.

Variable sha256 : bytes -> bytes.
Variable aes_encrypt_block : bytes -> bytes -> bytes.
Variable utf8_encode : str -> option bytes.
Variable utf8_decode : bytes -> option str.
Variable json_loads : str -> option json.

Local Abbreviation decrypt_blob' :=
  (decrypt_blob sha256 aes_encrypt_block utf8_encode utf8_decode json_loads).
Local Abbreviation main' :=
  (main sha256 aes_encrypt_block utf8_encode utf8_decode json_loads).
Local Abbreviation counter_mode' := (counter_mode aes_encrypt_block).
Local Abbreviation decryptor_steps' :=
  (decryptor_steps sha256 aes_encrypt_block utf8_decode json_loads).

Lemma keystream_counter (key : bytes) (counter : N) (nblocks : nat) :
  (counter < COUNTER_MODULUS)%N ->
  keystream aes_encrypt_block key counter nblocks
  = flat_map
      (fun i => aes_encrypt_block key
                  (to_bytes_big 16
                     ((counter + N.of_nat i) mod COUNTER_MODULUS)%N))
      (seq 0 nblocks).
Proof.
  revert counter. induction nblocks as [|n IH]; intros counter Hc.
  - reflexivity.
  - cbn [keystream seq flat_map].
    rewrite N.add_0_r, (N.mod_small counter) by exact Hc. f_equal.
    rewrite IH by (apply N.mod_upper_bound; discriminate).
    rewrite <- seq_shift, flat_map_shift. apply flat_map_ext. intros i.
    rewrite N.Div0.add_mod_idemp_l. do 3 f_equal. lia.
Qed.

Lemma AES_new_ctr_ok (key iv : bytes) :
  length key = 32 -> length iv = 16 ->
  AES_new_ctr key (from_bytes_big iv)
  = Ok {| ctr_key := key; ctr_counter := from_bytes_big iv |}.
Proof.
  intros Hk Hiv. unfold AES_new_ctr. rewrite Hk. cbn [Nat.eqb orb negb].
  pose proof (from_bytes_big_bound iv) as Hb. rewrite Hiv in Hb.
  assert ((COUNTER_MODULUS - 1 <? from_bytes_big iv)%N = false) as ->.
  { apply N.ltb_ge. unfold COUNTER_MODULUS.
    change (256 ^ N.of_nat 16)%N with (2 ^ 128)%N in Hb. lia. }
  reflexivity.
Qed.

Lemma ctr_crypt_counter_mode (key iv data : bytes) :
  length iv = 16 ->
  ctr_crypt aes_encrypt_block
    {| ctr_key := key; ctr_counter := from_bytes_big iv |} data
  = counter_mode' key iv data.
Proof.
  intros Hiv. unfold ctr_crypt, counter_mode, counter_block. cbn [ctr_key ctr_counter].
  rewrite keystream_counter; [reflexivity|].
  pose proof (from_bytes_big_bound iv) as Hb. rewrite Hiv in Hb. exact Hb.
Qed.

Lemma split_decodes (blob key_str enc_b64 : str) :
  split_blob_guess blob = Ok (key_str, enc_b64) ->
  exists raw, b64decode_loose enc_b64 = Ok raw.
Proof.
  intros H. apply (proj1 (validate_first _ _ _)) in H.
  apply first_decodable_in in H. exact (proj2 H).
Qed.

Lemma decrypt_blob_short (blob key_str enc_b64 : str) (key_bytes raw : bytes) :
  split_blob_guess blob = Ok (key_str, enc_b64) ->
  utf8_encode key_str = Some key_bytes ->
  b64decode_loose enc_b64 = Ok raw ->
  length raw < 17 ->
  decrypt_blob' blob = Err (PayloadTooShort (length raw)).
Proof.
  intros Hsplit Hkey Hraw Hlt. unfold decrypt_blob.
  rewrite Hsplit, Hkey, Hraw. cbn [raise_none raise_decode].
  apply Nat.ltb_lt in Hlt. now rewrite Hlt.
Qed.

Lemma decrypt_blob_long (blob key_str enc_b64 : str) (key_bytes raw : bytes) :
  split_blob_guess blob = Ok (key_str, enc_b64) ->
  utf8_encode key_str = Some key_bytes ->
  length (sha256 key_bytes) = 32 ->
  b64decode_loose enc_b64 = Ok raw ->
  17 <= length raw ->
  decrypt_blob' blob = decryptor_steps' key_bytes raw.
Proof.
  intros Hsplit Hkey Hlen Hraw Hge. unfold decrypt_blob.
  rewrite Hsplit, Hkey, Hraw. cbn [raise_none raise_decode].
  assert ((length raw <? 17) = false) as -> by (apply Nat.ltb_ge; exact Hge).
  assert (Hiv : length (firstn 16 raw) = 16) by (rewrite length_firstn; lia).
  rewrite (AES_new_ctr_ok _ _ Hlen Hiv).
  rewrite (ctr_crypt_counter_mode _ _ _ Hiv). reflexivity.
Qed.

(** The Decryptor encodes the key material before it decodes or measures the
    payload: key material without UTF-8 bytes ends in the encoding error. *)
Lemma decrypt_blob_unencodable (blob key_str enc_b64 : str) :
  split_blob_guess blob = Ok (key_str, enc_b64) ->
  utf8_encode key_str = None ->
  decrypt_blob' blob = Err UnicodeEncodeError.
Proof.
  intros Hsplit Hkey. unfold decrypt_blob. rewrite Hsplit, Hkey. reflexivity.
Qed.

(** C3, amended. After the split the ciphertext half decodes to some [raw].
    Key material that has no UTF-8 bytes (a lone surrogate) ends in the
    encoding error, whatever the length of [raw].  Otherwise, with
    [key_bytes] the UTF-8 bytes of the key material and the key their
    32-byte digest: the payload-too-short error is raised exactly when [raw]
    has fewer than 17 bytes, and otherwise the result is the JSON parse of
    the strict UTF-8 decoding of [raw[16:]] decrypted in counter mode from
    the big-endian counter [raw[:16]]. *)
Theorem decryptor_contract (blob key_str enc_b64 : str) :
  split_blob_guess blob = Ok (key_str, enc_b64) ->
  exists raw,
    b64decode_loose enc_b64 = Ok raw
    /\ (utf8_encode key_str = None ->
        decrypt_blob' blob = Err UnicodeEncodeError)
    /\ (forall key_bytes,
          utf8_encode key_str = Some key_bytes ->
          length (sha256 key_bytes) = 32 ->
          ((exists n, decrypt_blob' blob = Err (PayloadTooShort n))
           <-> length raw < 17)
          /\ (length raw < 17 ->
              decrypt_blob' blob = Err (PayloadTooShort (length raw)))
          /\ (17 <= length raw ->
              decrypt_blob' blob = decryptor_steps' key_bytes raw)).
Proof.
  intros Hsplit.
  destruct (split_decodes _ _ _ Hsplit) as [raw Hraw].
  exists raw. split; [exact Hraw|].
  split; [now apply decrypt_blob_unencodable with enc_b64|].
  intros key_bytes Hkey Hlen.
  assert (Hshort : length raw < 17 ->
                   decrypt_blob' blob = Err (PayloadTooShort (length raw)))
    by (now apply decrypt_blob_short with key_str enc_b64 key_bytes).
  assert (Hlong : 17 <= length raw ->
                  decrypt_blob' blob = decryptor_steps' key_bytes raw)
    by (now apply decrypt_blob_long with key_str enc_b64).
  split; [|split; assumption].
  split.
  - intros [n Hn]. destruct (Nat.lt_ge_cases (length raw) 17) as [|Hge];
      [assumption|].
    rewrite (Hlong Hge) in Hn. unfold decryptor_steps in Hn.
    destruct (utf8_decode _); [|discriminate].
    cbn [raise_none] in Hn. destruct (json_loads _); discriminate.
  - intros Hlt. eauto.
Qed.

(** [decrypt_blob] never ends in the error of the locate step. *)
Lemma decrypt_blob_not_locate (blob : str) :
  decrypt_blob' blob <> Err LocateError.
Proof.
  unfold decrypt_blob.
  destruct (split_blob_guess blob) as [[key_str enc_b64]|e] eqn:S.
  - destruct (utf8_encode key_str); cbn [raise_none]; [|discriminate].
    destruct (b64decode_loose enc_b64); cbn [raise_decode]; [|discriminate].
    destruct (length _ <? 17); [discriminate|].
    unfold AES_new_ctr. destruct (negb _); [discriminate|].
    destruct (_ <? _)%N; [discriminate|].
    destruct (utf8_decode _); cbn [raise_none]; [|discriminate].
    destruct (json_loads _); discriminate.
  - apply validate_error in S. destruct S as [a ->]. discriminate.
Qed.

(** C8, amended: the locate error is raised exactly when the Locator finds
    no string or finds the empty string; a non-empty string goes on to the
    Splitter. *)
Theorem locate_error_iff (data : json) :
  (main' data = Err LocateError
   <-> find_pageprops_a data = None \/ find_pageprops_a data = Some [])
  /\ (forall blob,
        find_pageprops_a data = Some blob -> blob <> [] ->
        main' data = decrypt_blob' blob).
Proof.
  unfold main. destruct (find_pageprops_a data) as [[|c blob]|]; cbn [not_].
  - split; [split; auto|]. intros blob [= <-] H. contradiction.
  - split.
    + split.
      * intros H. now apply decrypt_blob_not_locate in H.
      * intros [H|H]; discriminate.
    + now intros blob' [= <-] _.
  - split; [split; auto|]. discriminate.
Qed.

End DecryptorProperties.

(** ** The blob of the inverse construction *)

Lemma starts_with_app (p : char -> bool) (a b : str) :
  a <> [] -> starts_with p (a ++ b) = starts_with p a.
Proof. destruct a; [contradiction | reflexivity]. Qed.

Lemma ends_with_app (p : char -> bool) (a b : str) :
  b <> [] -> ends_with p (a ++ b) = ends_with p b.
Proof.
  intros H. unfold ends_with. rewrite rev_app_distr.
  apply starts_with_app. intros E. apply H.
  rewrite <- (rev_involutive b), E. reflexivity.
Qed.

Lemma starts_with_outer (s : str) :
  starts_with outer s = false ->
  starts_with isspace s = false
  /\ starts_with (one_of [DQUOTE]) s = false
  /\ starts_with (one_of [SQUOTE]) s = false.
Proof.
  destruct s as [|c s]; simpl; [auto|]. unfold outer.
  intros H. apply orb_false_elim in H. destruct H as [H H3].
  apply orb_false_elim in H. destruct H as [H1 H2]. auto.
Qed.

Lemma trim_id (s : str) :
  starts_with outer s = false -> ends_with outer s = false -> trim s = s.
Proof.
  intros Hs He. apply starts_with_outer in Hs. apply starts_with_outer in He.
  destruct Hs as [S1 [S2 S3]]. destruct He as [E1 [E2 E3]].
  unfold trim.
  rewrite (strip_id isspace s S1 E1), (strip_id _ s S2 E2).
  exact (strip_id _ s S3 E3).
Qed.

Section StandardEncoding.
Import Base64 Base64Spec LooseFacts.

Variable raw : bytes.
Hypothesis raw_long : 17 <= length raw.

Local Abbreviation enc := (decode_ascii (b64encode raw)).

Lemma enc_length : exists m, length enc = 4 * m /\ 6 <= m.
Proof.
  exists ((length raw + 2) / 3). split.
  - unfold enc, decode_ascii. rewrite length_map. apply length_b64encode.
  - apply Nat.div_le_lower_bound; lia.
Qed.

Lemma enc_not_nil : enc <> [].
Proof.
  destruct enc_length as [m [E Hm]]. intros H. rewrite H in E. simpl in E. lia.
Qed.

Lemma enc_inner : forallb (fun c => negb (outer c)) enc = true.
Proof.
  unfold enc. rewrite forallb_decode_ascii.
  apply (forallb_weaken plain); [|apply plain_b64encode].
  intros c Hc. unfold plain in Hc. cbv zeta in Hc.
  repeat (apply andb_prop in Hc; destruct Hc as [Hc ?]).
  unfold outer, one_of. cbn [existsb].
  repeat match goal with
         | H : negb _ = true |- _ => apply negb_true_iff in H; rewrite H
         end.
  reflexivity.
Qed.

Lemma enc_starts : starts_with outer enc = false.
Proof.
  pose proof enc_inner as H. pose proof enc_not_nil as N.
  destruct enc as [|c s]; [contradiction|]. simpl in *.
  apply andb_prop in H. now apply negb_true_iff, (proj1 H).
Qed.

Lemma enc_decodes : b64decode_loose enc = Ok raw.
Proof. apply b64decode_loose_standard. Qed.

(** A pad of the encoding is its last character. *)
Lemma enc_pad_last : In EQUALS enc -> exists pre, enc = pre ++ [EQUALS].
Proof.
  unfold enc, decode_ascii. intros H. apply in_map_iff in H.
  destruct H as [x [Hx Hin]].
  assert (x = PAD) as ->.
  { rewrite <- (byte_of_N_to_N x), Hx. reflexivity. }
  destruct (b64encode_pad_last raw Hin) as [pre E]. rewrite E.
  exists (List.map Byte.to_N pre). now rewrite map_app.
Qed.

Lemma enc_eq_rejected : b64decode_loose (enc ++ [EQUALS]) = Err InvalidLengthMod4.
Proof.
  apply explicit_error_iff.
  assert (strip isspace (enc ++ [EQUALS]) = enc ++ [EQUALS]) as ->.
  { apply strip_id.
    - rewrite starts_with_app by apply enc_not_nil.
      apply (starts_with_outer _ enc_starts).
    - rewrite ends_with_app by discriminate. reflexivity. }
  destruct enc_length as [m [E _]]. rewrite length_app, E. cbn [length].
  replace (4 * m + 1) with (1 + m * 4) by lia.
  now rewrite Nat.Div0.mod_add.
Qed.

(** Nothing but the end of the encoding follows its last [=]. *)
Lemma enc_eq_is_last (pre l : str) :
  enc = pre ++ EQUALS :: l -> ~ In EQUALS l -> l = [].
Proof.
  intros E Hl.
  assert (Henc : In EQUALS enc)
    by (rewrite E; apply in_or_app; right; now left).
  destruct (enc_pad_last Henc) as [epre Ee].
  destruct (rev l) as [|z rl] eqn:R.
  - rewrite <- (rev_involutive l), R. reflexivity.
  - exfalso. apply Hl.
    assert (El : l = rev rl ++ [z])
      by (rewrite <- (rev_involutive l), R; reflexivity).
    rewrite El in E. rewrite Ee in E.
    replace (pre ++ EQUALS :: rev rl ++ [z])
      with ((pre ++ EQUALS :: rev rl) ++ [z]) in E
      by (now rewrite <- app_assoc).
    apply app_inj_tail in E. destruct E as [_ <-].
    rewrite El. apply in_or_app. right. now left.
Qed.

(** With a key material of six characters after a payload of 17 bytes no
    candidate is generated at all. *)
Lemma split_short_key (key : str) :
  length raw = 17 ->
  length key = 6 ->
  ends_with outer key = false ->
  ~ In EQUALS key ->
  split_blob_guess (enc ++ key) = Err (SplitFailed []).
Proof.
  intros H17 H6 Hend Hkey.
  assert (Hlen : length enc = 24).
  { unfold enc, decode_ascii. rewrite length_map, length_b64encode, H17.
    reflexivity. }
  assert (Hk : key <> []) by (intros ->; discriminate).
  unfold split_blob_guess.
  rewrite trim_id;
    [| rewrite starts_with_app by apply enc_not_nil; apply enc_starts
     | rewrite ends_with_app by exact Hk; exact Hend ].
  unfold candidates_of. rewrite suffix_candidates_flat_map.
  unfold key_lens, suffix_guess. rewrite length_app, Hlen, H6.
  cbn [flat_map Nat.add Nat.leb app].
  destruct (in_dec N.eq_dec EQUALS (enc ++ key)) as [Hin|Hout];
    [|now rewrite (insert_delimiter_absent _ _ Hout)].
  destruct (last_occurrence _ _ Hin) as [pre [post [E Hp]]].
  rewrite E at 1. rewrite (insert_delimiter_at pre post _ Hp).
  destruct (Nat.leb_spec 18 (length post)) as [C|C]; [|reflexivity].
  exfalso. symmetry in E. apply app_eq_app in E.
  destruct E as [l [[E1 E2]|[E1 E2]]].
  - apply Hkey. rewrite E2. apply in_or_app. right. now left.
  - destruct l as [|x l].
    + apply Hkey. cbn [app] in E2. rewrite <- E2. now left.
    + cbn [app] in E2. injection E2 as <- E2.
      assert (Hl : ~ In EQUALS l)
        by (intros Hl; apply Hp; rewrite E2; apply in_or_app; now left).
      rewrite (enc_eq_is_last pre l E1 Hl) in E2. cbn [app] in E2.
      rewrite E2, H6 in C. lia.
Qed.

End StandardEncoding.

Section StandardBlob.
Import Base64 Base64Spec LooseFacts.

Variable raw : bytes.
Variable key : str.
Hypothesis raw_long : 17 <= length raw.
Hypothesis key_21 : length key = 21.
Hypothesis key_end : ends_with outer key = false.
Hypothesis key_eq_1 : rfind EQUALS key <> 1%Z.
Hypothesis key_eq_2 : rfind EQUALS key <> 2%Z.

Local Abbreviation enc := (decode_ascii (b64encode raw)).

Lemma key_not_nil : key <> [].
Proof. intros H. rewrite H in key_21. discriminate. Qed.

Lemma trim_standard : trim (enc ++ key) = enc ++ key.
Proof.
  apply trim_id.
  - rewrite starts_with_app by exact (enc_not_nil raw raw_long).
    exact (enc_starts raw raw_long).
  - rewrite ends_with_app by apply key_not_nil. apply key_end.
Qed.

Lemma suffix_candidates_standard :
  exists rest, suffix_candidates (enc ++ key) = (key, enc) :: rest.
Proof.
  destruct (enc_length raw raw_long) as [m [E Hm]].
  rewrite suffix_candidates_flat_map. unfold key_lens. cbn [flat_map].
  eexists. unfold suffix_guess at 1. rewrite length_app, E, key_21.
  destruct (Nat.leb_spec (4 * m + 21) (21 + 10)); [lia|].
  replace (4 * m + 21 - 21) with (length enc + 0) by lia.
  rewrite skipn_app, firstn_app.
  replace (length enc + 0 - length enc) with 0 by lia.
  rewrite skipn_all2, firstn_all2 by lia.
  cbn [skipn firstn app]. rewrite app_nil_r. reflexivity.
Qed.

Lemma validate_standard (rest : list candidate) (errors : list attempt) :
  validate ((key, enc) :: rest) errors = Ok (key, enc).
Proof. cbn [validate]. now rewrite enc_decodes. Qed.

(** The Splitter cuts the blob of the inverse construction where it was
    put together. *)
Lemma split_standard : split_blob_guess (enc ++ key) = Ok (key, enc).
Proof.
  unfold split_blob_guess. rewrite trim_standard. unfold candidates_of.
  destruct suffix_candidates_standard as [rest ->].
  destruct (in_dec N.eq_dec EQUALS (enc ++ key)) as [Hin|Hout].
  2:{ rewrite (insert_delimiter_absent _ _ Hout). apply validate_standard. }
  destruct (last_occurrence _ _ Hin) as [pre [post [E Hp]]].
  rewrite E at 1. rewrite (insert_delimiter_at pre post _ Hp).
  destruct ((18 <=? length post) && (length post <=? 30)) eqn:C;
    [|apply validate_standard].
  apply andb_prop in C. destruct C as [C1 C2].
  apply Nat.leb_le in C1, C2.
  assert (Hfall : pre = enc ->
                  validate ((post, pre ++ [EQUALS]) :: (key, enc) :: rest) []
                  = Ok (key, enc)).
  { intros ->. cbn [validate]. rewrite (enc_eq_rejected raw raw_long).
    rewrite enc_decodes. reflexivity. }
  symmetry in E. apply app_eq_app in E. destruct E as [l [[E1 E2]|[E1 E2]]].
  - (* the last [=] is in the key material, after [l] *)
    assert (Hr : rfind EQUALS key = Z.of_nat (length l))
      by (rewrite E2; now apply rfind_last).
    assert (Hl : length l + S (length post) = 21)
      by (rewrite <- key_21, E2, length_app; reflexivity).
    destruct l as [|x [|y [|z l]]]; cbn [length] in *; try lia.
    apply Hfall. rewrite E1. now rewrite app_nil_r.
  - (* the last [=] is in the encoded ciphertext, or begins the key *)
    destruct l as [|x l].
    + apply Hfall. rewrite E1. now rewrite app_nil_r.
    + cbn [app] in E2. injection E2 as <- E2.
      assert (Henc : In EQUALS enc)
        by (rewrite E1; apply in_or_app; right; now left).
      destruct (enc_pad_last raw Henc) as [epre Ee].
      destruct (rev l) as [|z rl] eqn:R.
      * assert (l = []) as -> by (rewrite <- (rev_involutive l), R; reflexivity).
        cbn [app] in E2. subst post. rewrite <- E1. apply validate_standard.
      * exfalso. apply Hp. rewrite E2. apply in_or_app. left.
        assert (El : l = rev rl ++ [z])
          by (rewrite <- (rev_involutive l), R; reflexivity).
        rewrite El in E1. rewrite Ee in E1.
        replace (pre ++ EQUALS :: rev rl ++ [z])
          with ((pre ++ EQUALS :: rev rl) ++ [z]) in E1
          by (now rewrite <- app_assoc).
        apply app_inj_tail in E1. destruct E1 as [_ <-].
        rewrite El. apply in_or_app. right. now left.
Qed.

End StandardBlob.

(** ** The inverse construction *)

Lemma length_flat_map_const {T U : Type} (f : T -> list U) (k : nat)
    (l : list T) :
  (forall x, length (f x) = k) -> length (flat_map f l) = k * length l.
Proof.
  intros H. induction l as [|x l IH]; simpl; [lia|].
  rewrite length_app, H, IH. lia.
Qed.

Section InversePipeline.

Variable sha256 : bytes -> bytes.
Variable aes_encrypt_block : bytes -> bytes -> bytes.
Variable utf8_encode : str -> option bytes.
Variable utf8_decode : bytes -> option str.
Variable json_loads : str -> option json.

Local Abbreviation main' :=
  (main sha256 aes_encrypt_block utf8_encode utf8_decode json_loads).
Local Abbreviation counter_mode' := (counter_mode aes_encrypt_block).
Local Abbreviation inverse_blob' := (inverse_blob sha256 aes_encrypt_block).

Lemma length_counter_mode (key iv data : bytes) :
  (forall block, length block = 16 ->
                 length (aes_encrypt_block key block) = 16) ->
  length (counter_mode' key iv data) = length data.
Proof.
  intros Hblock. unfold counter_mode. apply length_xor_bytes.
  rewrite (length_flat_map_const _ 16).
  - rewrite length_seq.
    pose proof (Nat.div_mod_eq (length data + 15) 16) as D.
    pose proof (Nat.mod_upper_bound (length data + 15) 16) as U. lia.
  - intros i. apply Hblock. apply length_to_bytes_big.
Qed.

(** Counter mode is its own inverse. *)
Lemma counter_mode_twice (key iv data : bytes) :
  (forall block, length block = 16 ->
                 length (aes_encrypt_block key block) = 16) ->
  counter_mode' key iv (counter_mode' key iv data) = data.
Proof.
  intros Hblock. unfold counter_mode at 1.
  rewrite (length_counter_mode _ _ _ Hblock). unfold counter_mode.
  apply xor_bytes_twice.
  rewrite (length_flat_map_const _ 16).
  - rewrite length_seq.
    pose proof (Nat.div_mod_eq (length data + 15) 16) as D.
    pose proof (Nat.mod_upper_bound (length data + 15) 16) as U. lia.
  - intros i. apply Hblock. apply length_to_bytes_big.
Qed.

(** C1, amended: for a key material of 21 characters that does not end in a
    character that [trim] removes and whose last [=], if any, is not its
    second or third character, the blob of the inverse construction, found
    by the Locator, decrypts to the JSON value of the plaintext. *)
Theorem inverse_pipeline_roundtrip (key_material text : str)
    (key_bytes iv pt : bytes) (v data : json) :
  length key_material = 21 ->
  ends_with outer key_material = false ->
  rfind EQUALS key_material <> 1%Z ->
  rfind EQUALS key_material <> 2%Z ->
  utf8_encode key_material = Some key_bytes ->
  length (sha256 key_bytes) = 32 ->
  (forall block, length block = 16 ->
                 length (aes_encrypt_block (sha256 key_bytes) block) = 16) ->
  length iv = 16 ->
  pt <> [] ->
  utf8_decode pt = Some text ->
  json_loads text = Some v ->
  find_pageprops_a data = Some (inverse_blob' key_material key_bytes iv pt) ->
  main' data = Ok v.
Proof.
  intros Hk Hend H1 H2 Hkb Hsha Hblock Hiv Hpt Htext Hv Hfind.
  set (ct := counter_mode' (sha256 key_bytes) iv pt) in *.
  assert (Hct : length ct = length pt) by (apply length_counter_mode, Hblock).
  assert (Hraw : 17 <= length (iv ++ ct)).
  { rewrite length_app, Hiv, Hct. destruct pt; [contradiction | simpl; lia]. }
  unfold main. rewrite Hfind. unfold inverse_blob. fold ct.
  set (enc := decode_ascii (Base64.b64encode (iv ++ ct))).
  pose proof (enc_not_nil (iv ++ ct) Hraw) as Hne. fold enc in Hne.
  destruct enc as [|c enc'] eqn:Eenc; [contradiction|].
  cbn [app not_]. change (c :: enc' ++ key_material) with ((c :: enc') ++ key_material).
  rewrite <- Eenc. unfold enc.
  rewrite (decrypt_blob_long sha256 aes_encrypt_block utf8_encode utf8_decode
             json_loads _ key_material _ key_bytes (iv ++ ct)
             (split_standard (iv ++ ct) key_material Hraw Hk Hend H1 H2) Hkb Hsha
             (enc_decodes (iv ++ ct)) Hraw).
  unfold decryptor_steps.
  assert (firstn 16 (iv ++ ct) = iv) as ->.
  { rewrite firstn_app, Hiv. replace (16 - 16) with 0 by lia.
    rewrite firstn_all2 by lia. cbn [firstn]. apply app_nil_r. }
  assert (skipn 16 (iv ++ ct) = ct) as ->.
  { rewrite skipn_app, Hiv. replace (16 - 16) with 0 by lia.
    rewrite skipn_all2 by lia. reflexivity. }
  unfold ct. rewrite (counter_mode_twice _ _ _ Hblock).
  rewrite Htext. cbn [raise_none]. now rewrite Hv.
Qed.

End InversePipeline.

Module SampleFacts.
Import Sample.

Lemma sha256_length (m : bytes) : length (sha256 m) = 32.
Proof.
  unfold sha256. rewrite length_firstn, length_app, repeat_length. lia.
Qed.

Lemma block_length (key block : bytes) :
  length key = 32 -> length block = 16 ->
  length (aes_encrypt_block key block) = 16.
Proof.
  intros Hk Hb. unfold aes_encrypt_block.
  assert (H1 : length (xor_bytes block (firstn 16 key)) = 16)
    by (rewrite length_xor_bytes; rewrite ?length_firstn; lia).
  rewrite length_xor_bytes; rewrite ?H1, ?length_skipn; lia.
Qed.

End SampleFacts.

Lemma inverse_pipeline_roundtrip_witness :
  length (lit "abcdefghijklmnopqrstu") = 21
  /\ Sample.main
       (Sample.document
          (Sample.blob_of (lit "abcdefghijklmnopqrstu") (lit "[1]") Sample.iv))
     = Ok (JList [JInt 1]).
Proof.
  split; [reflexivity|].
  apply (inverse_pipeline_roundtrip Sample.sha256 Sample.aes_encrypt_block
           Sample.utf8_encode Sample.utf8_decode Sample.json_loads
           (lit "abcdefghijklmnopqrstu") (lit "[1]")
           (Sample.bytes_of (lit "abcdefghijklmnopqrstu")) Sample.iv
           (Sample.bytes_of (lit "[1]")) (JList [JInt 1])).
  - reflexivity.
  - reflexivity.
  - vm_compute. discriminate.
  - vm_compute. discriminate.
  - reflexivity.
  - reflexivity.
  - intros block Hb. apply SampleFacts.block_length; [reflexivity | exact Hb].
  - reflexivity.
  - discriminate.
  - reflexivity.
  - reflexivity.
  - reflexivity.
Defined.

Lemma decryptor_contract_witness :
  exists raw,
    b64decode_loose (lit "QUJDQUJDQUJDQUJDQUJDQUJDQQ==") = Ok raw
    /\ (Sample.utf8_encode (lit "abcdefghijklmnopqrstu") = None ->
        Sample.decrypt_blob
          (lit "QUJDQUJDQUJDQUJDQUJDQUJDQQ==abcdefghijklmnopqrstu")
        = Err UnicodeEncodeError)
    /\ (forall key_bytes,
          Sample.utf8_encode (lit "abcdefghijklmnopqrstu") = Some key_bytes ->
          length (Sample.sha256 key_bytes) = 32 ->
          ((exists n,
              Sample.decrypt_blob
                (lit "QUJDQUJDQUJDQUJDQUJDQUJDQQ==abcdefghijklmnopqrstu")
              = Err (PayloadTooShort n))
           <-> length raw < 17)
          /\ (length raw < 17 ->
              Sample.decrypt_blob
                (lit "QUJDQUJDQUJDQUJDQUJDQUJDQQ==abcdefghijklmnopqrstu")
              = Err (PayloadTooShort (length raw)))
          /\ (17 <= length raw ->
              Sample.decrypt_blob
                (lit "QUJDQUJDQUJDQUJDQUJDQUJDQQ==abcdefghijklmnopqrstu")
              = decryptor_steps Sample.sha256 Sample.aes_encrypt_block
                  Sample.utf8_decode Sample.json_loads key_bytes raw)).
Proof.
  apply (decryptor_contract Sample.sha256 Sample.aes_encrypt_block
           Sample.utf8_encode Sample.utf8_decode Sample.json_loads
           (lit "QUJDQUJDQUJDQUJDQUJDQUJDQQ==abcdefghijklmnopqrstu")
           (lit "abcdefghijklmnopqrstu")
           (lit "QUJDQUJDQUJDQUJDQUJDQUJDQQ=="));
    reflexivity.
Defined.

(** C3, as stated, fails: the blob splits, its ciphertext half decodes to nine
    bytes, fewer than 17, and the Decryptor ends in the encoding error of the
    key material, which precedes the length test, not in the
    payload-too-short error. *)
Lemma surrogate_key_precedes_length_test :
  split_blob_guess surrogate_blob = Ok (surrogate_key, lit "QUJDQUJDQUJD")
  /\ b64decode_loose (lit "QUJDQUJDQUJD")
     = Ok (Sample.bytes_of (lit "ABCABCABC"))
  /\ length (Sample.bytes_of (lit "ABCABCABC")) < 17
  /\ Utf8.encode surrogate_key = None
  /\ decrypt_blob Sample.sha256 Sample.aes_encrypt_block Utf8.encode
       Sample.utf8_decode Sample.json_loads surrogate_blob
     = Err UnicodeEncodeError
  /\ ~ payload_too_short_exactly_when_short.
Proof.
  assert (Hsplit : split_blob_guess surrogate_blob
                   = Ok (surrogate_key, lit "QUJDQUJDQUJD"))
    by (vm_compute; reflexivity).
  assert (Hraw : b64decode_loose (lit "QUJDQUJDQUJD")
                 = Ok (Sample.bytes_of (lit "ABCABCABC")))
    by (vm_compute; reflexivity).
  assert (Hlt : length (Sample.bytes_of (lit "ABCABCABC")) < 17)
    by (vm_compute; lia).
  assert (Herr : decrypt_blob Sample.sha256 Sample.aes_encrypt_block
                   Utf8.encode Sample.utf8_decode Sample.json_loads
                   surrogate_blob
                 = Err UnicodeEncodeError)
    by (vm_compute; reflexivity).
  split; [exact Hsplit|]. split; [exact Hraw|]. split; [exact Hlt|].
  split; [vm_compute; reflexivity|]. split; [exact Herr|].
  intros H.
  destruct (H Sample.sha256 Sample.aes_encrypt_block Utf8.encode
              Sample.utf8_decode Sample.json_loads surrogate_blob
              surrogate_key (lit "QUJDQUJDQUJD")
              (Sample.bytes_of (lit "ABCABCABC"))
              SampleFacts.sha256_length Hsplit Hraw) as [_ H2].
  destruct (H2 Hlt) as [n Hn]. rewrite Herr in Hn. discriminate Hn.
Qed.

Lemma locate_error_iff_witness :
  Sample.main (Sample.document (lit "QUJD"))
  = Sample.decrypt_blob (lit "QUJD").
Proof.
  apply (proj2 (locate_error_iff Sample.sha256 Sample.aes_encrypt_block
                  Sample.utf8_encode Sample.utf8_decode Sample.json_loads
                  (Sample.document (lit "QUJD"))));
    [reflexivity | discriminate].
Defined.

(** C8, as stated, fails: the Locator finds the empty string, and the program
    still ends in the locate error instead of going on to the Splitter, which
    would have raised its own error. *)
Lemma empty_string_is_locate_error :
  find_pageprops_a (JDict [(PAGEPROPS, JDict [(A, JStr [])])]) = Some []
  /\ (forall sha256 aes_encrypt_block utf8_encode utf8_decode json_loads,
        main sha256 aes_encrypt_block utf8_encode utf8_decode json_loads
          (JDict [(PAGEPROPS, JDict [(A, JStr [])])])
        = Err LocateError)
  /\ (forall sha256 aes_encrypt_block utf8_encode utf8_decode json_loads,
        decrypt_blob sha256 aes_encrypt_block utf8_encode utf8_decode
          json_loads []
        = Err (SplitFailed []))
  /\ ~ locate_error_only_when_absent.
Proof.
  split; [reflexivity|]. split; [reflexivity|]. split; [reflexivity|].
  intros H.
  destruct (H Sample.sha256 Sample.aes_encrypt_block Sample.utf8_encode
              Sample.utf8_decode Sample.json_loads
              (JDict [(PAGEPROPS, JDict [(A, JStr [])])])) as [[H1 _] _].
  specialize (H1 eq_refl). discriminate H1.
Qed.

(** C1, as stated, fails.  With the key material [secret] and a plaintext of
    one byte the Splitter has no candidate, whatever the primitives; with a
    key material of 21 characters whose second character is [=] the Splitter
    returns the 19 characters after it as the key material; with one that
    ends in a space it returns the 20 characters before the space. *)
Lemma short_key_material_fails :
  (forall raw, length raw = 17 ->
     split_blob_guess
       (decode_ascii (Base64.b64encode raw) ++ lit "secret")
     = Err (SplitFailed []))
  /\ Sample.main
       (Sample.document (Sample.blob_of (lit "secret") (lit "1") Sample.iv))
     = Err (SplitFailed [])
  /\ (exists enc_b64,
        split_blob_guess
          (Sample.blob_of (lit "k=bcdefghijklmnopqrst") (lit "1") Sample.iv)
        = Ok (lit "bcdefghijklmnopqrst", enc_b64))
  /\ Sample.main
       (Sample.document
          (Sample.blob_of (lit "k=bcdefghijklmnopqrst") (lit "1") Sample.iv))
     = Err JSONDecodeError
  /\ (exists enc_b64,
        split_blob_guess
          (Sample.blob_of (lit "abcdefghijklmnopqrst ") (lit "1") Sample.iv)
        = Ok (lit "abcdefghijklmnopqrst", enc_b64))
  /\ ~ roundtrip_for_every_key_material.
Proof.
  split.
  { intros raw H17.
    apply split_short_key;
      [rewrite H17; repeat constructor | exact H17 | reflexivity
      | reflexivity | ].
    simpl. intros H. repeat (destruct H as [H|H]; [discriminate H|]).
    exact H. }
  split; [vm_compute; reflexivity|].
  split; [eexists; vm_compute; reflexivity|].
  split; [vm_compute; reflexivity|].
  split; [eexists; vm_compute; reflexivity|].
  intros H.
  specialize (H Sample.sha256 Sample.aes_encrypt_block Sample.utf8_encode
                Sample.utf8_decode Sample.json_loads
                (lit "secret") (lit "1") (Sample.bytes_of (lit "secret"))
                Sample.iv (Sample.bytes_of (lit "1")) (JInt 1)
                (Sample.document
                   (Sample.blob_of (lit "secret") (lit "1") Sample.iv))).
  assert (E : Sample.main
                (Sample.document
                   (Sample.blob_of (lit "secret") (lit "1") Sample.iv))
              = Err (SplitFailed [])) by (vm_compute; reflexivity).
  unfold Sample.main in E. rewrite H in E.
  - discriminate E.
  - vm_compute; reflexivity.
  - apply SampleFacts.sha256_length.
  - intros block Hb. apply SampleFacts.block_length; [apply SampleFacts.sha256_length | exact Hb].
  - vm_compute; reflexivity.
  - vm_compute; discriminate.
  - vm_compute; reflexivity.
  - vm_compute; reflexivity.
  - unfold Sample.document, Sample.blob_of. reflexivity.
Qed.

(** * Further properties *)

(** ** Whitespace around a string *)

Lemma lstrip_app (p : char -> bool) (s t : str) :
  lstrip p (s ++ t)
  = match lstrip p s with
    | [] => lstrip p t
    | _ :: _ => lstrip p s ++ t
    end.
Proof.
  induction s as [|c s IH]; [reflexivity|].
  simpl. destruct (p c); [exact IH | reflexivity].
Qed.

Lemma lstrip_all (p : char -> bool) (w : str) :
  forallb p w = true -> lstrip p w = [].
Proof.
  induction w as [|c w IH]; [reflexivity|]. simpl.
  intros H. apply andb_prop in H. destruct H as [Hc Hw].
  rewrite Hc. now apply IH.
Qed.

Lemma rstrip_all (p : char -> bool) (w : str) :
  forallb p w = true -> rstrip p w = [].
Proof.
  intros H. unfold rstrip. rewrite lstrip_all; [reflexivity|].
  rewrite forallb_forall in *. intros x Hx. apply H. now apply in_rev.
Qed.

Lemma rstrip_app (p : char -> bool) (s t : str) :
  rstrip p (s ++ t)
  = match rstrip p t with
    | [] => rstrip p s
    | _ :: _ => s ++ rstrip p t
    end.
Proof.
  unfold rstrip. rewrite rev_app_distr, lstrip_app.
  destruct (lstrip p (rev t)) as [|c l] eqn:E; [reflexivity|].
  rewrite rev_app_distr, rev_involutive.
  destruct (rev (c :: l)) eqn:R; [|reflexivity].
  apply (f_equal (@rev char)) in R. rewrite rev_involutive in R. discriminate.
Qed.

(** A run of [p]-characters at either end does not change what [strip]
    returns. *)
Lemma strip_pad (p : char -> bool) (w1 s w2 : str) :
  forallb p w1 = true -> forallb p w2 = true ->
  strip p (w1 ++ s ++ w2) = strip p s.
Proof.
  intros H1 H2. unfold strip.
  rewrite lstrip_app, (lstrip_all p w1 H1), lstrip_app.
  destruct (lstrip p s) as [|c l] eqn:E.
  - rewrite (lstrip_all p w2 H2). reflexivity.
  - rewrite rstrip_app, (rstrip_all p w2 H2). reflexivity.
Qed.

Lemma trim_pad (w1 blob w2 : str) :
  forallb isspace w1 = true -> forallb isspace w2 = true ->
  trim (w1 ++ blob ++ w2) = trim blob.
Proof. intros H1 H2. unfold trim. now rewrite strip_pad. Qed.

(** X1. Whitespace before and after the string does not change what
    [b64decode_loose] returns or raises. *)
Theorem b64decode_loose_ignores_outer_whitespace (w1 s w2 : str) :
  forallb isspace w1 = true -> forallb isspace w2 = true ->
  b64decode_loose (w1 ++ s ++ w2) = b64decode_loose s.
Proof.
  intros H1 H2. rewrite !LooseFacts.b64decode_loose_eq.
  now rewrite strip_pad.
Qed.

Lemma b64decode_loose_ignores_outer_whitespace_witness :
  b64decode_loose (lit "  " ++ lit "QUI" ++ lit " ") = Ok ["A"; "B"]%byte.
Proof.
  rewrite (b64decode_loose_ignores_outer_whitespace (lit "  ") (lit "QUI")
             (lit " ")); reflexivity.
Defined.

Section OuterWhitespace.

Variable sha256 : bytes -> bytes.
Variable aes_encrypt_block : bytes -> bytes -> bytes.
Variable utf8_encode : str -> option bytes.
Variable utf8_decode : bytes -> option str.
Variable json_loads : str -> option json.

(** X2. Whitespace before and after the blob changes neither the split nor
    the result of [decrypt_blob]. *)
Theorem decrypt_blob_ignores_outer_whitespace (w1 blob w2 : str) :
  forallb isspace w1 = true -> forallb isspace w2 = true ->
  split_blob_guess (w1 ++ blob ++ w2) = split_blob_guess blob
  /\ decrypt_blob sha256 aes_encrypt_block utf8_encode utf8_decode json_loads
       (w1 ++ blob ++ w2)
     = decrypt_blob sha256 aes_encrypt_block utf8_encode utf8_decode
         json_loads blob.
Proof.
  intros H1 H2.
  assert (E : split_blob_guess (w1 ++ blob ++ w2) = split_blob_guess blob)
    by (unfold split_blob_guess; now rewrite trim_pad).
  split; [exact E|]. unfold decrypt_blob. now rewrite E.
Qed.

End OuterWhitespace.

Lemma decrypt_blob_ignores_outer_whitespace_witness :
  split_blob_guess
    (lit " " ++ lit "QUJDQUJDQUJDQUJDQQ==abcdefghijklmnopqrstu" ++ lit "  ")
  = Ok (lit "abcdefghijklmnopqrstu", lit "QUJDQUJDQUJDQUJDQQ==").
Proof.
  rewrite (proj1 (decrypt_blob_ignores_outer_whitespace Sample.sha256
                    Sample.aes_encrypt_block Sample.utf8_encode
                    Sample.utf8_decode Sample.json_loads (lit " ")
                    (lit "QUJDQUJDQUJDQUJDQQ==abcdefghijklmnopqrstu")
                    (lit "  ") eq_refl eq_refl)).
  reflexivity.
Defined.

(** ** The two alphabets *)

Lemma lstrip_map (p : char -> bool) (f : char -> char) (s : str) :
  (forall c, p (f c) = p c) ->
  lstrip p (List.map f s) = List.map f (lstrip p s).
Proof.
  intros H. induction s as [|c s IH]; [reflexivity|].
  simpl. rewrite H. destruct (p c); [exact IH | reflexivity].
Qed.

Lemma strip_map (p : char -> bool) (f : char -> char) (s : str) :
  (forall c, p (f c) = p c) ->
  strip p (List.map f s) = List.map f (strip p s).
Proof.
  intros H. unfold strip, rstrip.
  rewrite (lstrip_map p f s H), <- map_rev, (lstrip_map p f _ H).
  now rewrite map_rev.
Qed.

Lemma strip_replace (p : char -> bool) (old new : char) (s : str) :
  p old = p new ->
  strip p (replace old new s) = replace old new (strip p s).
Proof.
  intros H. unfold replace. apply strip_map. intros c.
  destruct (N.eqb_spec c old) as [->|_]; [now rewrite H | reflexivity].
Qed.

Lemma to_standard_urlsafe (s : str) :
  Base64Spec.to_standard (urlsafe s) = Base64Spec.to_standard s.
Proof.
  unfold Base64Spec.to_standard, urlsafe, replace. rewrite !map_map.
  apply map_ext. intros c.
  change (N_of_ascii "+") with 43%N. change (N_of_ascii "/") with 47%N.
  change (N_of_ascii "-") with 45%N. change (N_of_ascii "_") with 95%N.
  destruct (N.eqb_spec c 43) as [->|H1]; [reflexivity|].
  destruct (N.eqb_spec c 47) as [->|H2]; [reflexivity|].
  destruct (N.eqb_spec c 45) as [->|H3]; [reflexivity|].
  reflexivity.
Qed.

(** X3. [b64decode_loose] makes no difference between the URL-safe and the
    standard spelling of a string. *)
Theorem b64decode_loose_urlsafe (s : str) :
  b64decode_loose (urlsafe s) = b64decode_loose s.
Proof.
  rewrite !LooseFacts.b64decode_loose_eq. unfold urlsafe at 1.
  rewrite !strip_replace by reflexivity. fold (urlsafe (strip isspace s)).
  now rewrite to_standard_urlsafe.
Qed.

(** ** Encodings without their padding *)

Module Unpadded.
Import Base64 Base64Spec Base64Facts Base64Roundtrip LooseFacts.

Lemma data_byte_alphabet (v : N) :
  (v < 64)%N -> data_byte (table_b2a_base64 v) = true.
Proof.
  intros Hv. destruct (alphabet_roundtrip v Hv) as [Hp Ht].
  unfold data_byte. rewrite Hp, Ht. apply N.ltb_lt in Hv. now rewrite Hv.
Qed.

Lemma data_byte_not_equals (x : byte) :
  data_byte x = true -> N.eqb (Byte.to_N x) EQUALS = false.
Proof.
  intros H.
  assert (K : implb (data_byte x) (negb (N.eqb (Byte.to_N x) EQUALS)) = true).
  { revert x H. intros x _. revert x. apply forall_byte. vm_compute. reflexivity. }
  rewrite H in K. simpl in K. now apply negb_true_iff.
Qed.

(** An encoding is data characters followed by zero, one or two pads, as
    the number of bytes modulo three tells. *)
Lemma b64encode_body (b : bytes) :
  exists body n,
    b64encode b = body ++ repeat PAD n
    /\ forallb data_byte body = true
    /\ (n = 0 /\ length body mod 4 = 0 /\ length b mod 3 = 0
        \/ n = 1 /\ length body mod 4 = 3 /\ length b mod 3 = 2
        \/ n = 2 /\ length body mod 4 = 2 /\ length b mod 3 = 1).
Proof.
  induction b as [|b0|b0 b1|b0 b1 b2 rest IH] using list_ind3.
  - exists [], 0. repeat split. left. repeat split.
  - pose proof (pair01 b0 b0) as H. unfold pair01_ok in H.
    split_andb H. bool_to_prop.
    cbn [b64encode]. fold (sextet0 b0). fold (sextet1_last b0).
    exists [table_b2a_base64 (sextet0 b0);
            table_b2a_base64 (sextet1_last b0)], 2.
    split; [reflexivity|]. split.
    + cbn [forallb]. rewrite !data_byte_alphabet by assumption. reflexivity.
    + right. right. repeat split.
  - pose proof (pair01 b0 b1) as H. pose proof (pair12 b1 b1) as G.
    unfold pair01_ok in H. unfold pair12_ok in G.
    split_andb H. split_andb G. bool_to_prop.
    cbn [b64encode]. fold (sextet0 b0). fold (sextet1 b0 b1).
    fold (sextet2_last b1).
    exists [table_b2a_base64 (sextet0 b0);
            table_b2a_base64 (sextet1 b0 b1);
            table_b2a_base64 (sextet2_last b1)], 1.
    split; [reflexivity|]. split.
    + cbn [forallb]. rewrite !data_byte_alphabet by assumption. reflexivity.
    + right. left. repeat split.
  - pose proof (pair01 b0 b1) as H. pose proof (pair12 b1 b2) as G.
    unfold pair01_ok in H. unfold pair12_ok in G.
    split_andb H. split_andb G. bool_to_prop.
    destruct IH as [body [n [E [F C]]]].
    cbn [b64encode]. fold (sextet0 b0). fold (sextet1 b0 b1).
    fold (sextet2 b1 b2). fold (sextet3 b2). rewrite E.
    exists (table_b2a_base64 (sextet0 b0)
            :: table_b2a_base64 (sextet1 b0 b1)
            :: table_b2a_base64 (sextet2 b1 b2)
            :: table_b2a_base64 (sextet3 b2) :: body), n.
    split; [reflexivity|]. split.
    + cbn [forallb]. rewrite !data_byte_alphabet by assumption. exact F.
    + assert (M4 : length (table_b2a_base64 (sextet0 b0)
                           :: table_b2a_base64 (sextet1 b0 b1)
                           :: table_b2a_base64 (sextet2 b1 b2)
                           :: table_b2a_base64 (sextet3 b2) :: body) mod 4
                   = length body mod 4).
      { cbn [length].
        replace (S (S (S (S (length body))))) with (length body + 1 * 4) by lia.
        apply Nat.Div0.mod_add. }
      assert (M3 : length (b0 :: b1 :: b2 :: rest) mod 3 = length rest mod 3).
      { cbn [length].
        replace (S (S (S (length rest)))) with (length rest + 1 * 3) by lia.
        apply Nat.Div0.mod_add. }
      rewrite M4, M3. exact C.
Qed.

(** The first steps of [b64decode_loose] leave plain characters alone. *)
Lemma plain_prepared (enc : bytes) :
  forallb plain enc = true ->
  to_standard (strip isspace (decode_ascii enc)) = decode_ascii enc.
Proof.
  intros Hp.
  assert (H1 : strip isspace (decode_ascii enc) = decode_ascii enc).
  { apply strip_none. rewrite forallb_decode_ascii.
    apply (forallb_weaken plain); [|exact Hp].
    intros c Hc. unfold plain in Hc. cbv zeta in Hc.
    repeat (apply andb_prop in Hc; destruct Hc as [Hc ?]). assumption. }
  rewrite H1. unfold to_standard.
  rewrite (replace_absent (N_of_ascii "-")).
  - apply replace_absent. rewrite forallb_decode_ascii.
    apply (forallb_weaken plain); [|exact Hp].
    intros c Hc. unfold plain in Hc. cbv zeta in Hc.
    repeat (apply andb_prop in Hc; destruct Hc as [Hc ?]). assumption.
  - rewrite forallb_decode_ascii.
    apply (forallb_weaken plain); [|exact Hp].
    intros c Hc. unfold plain in Hc. cbv zeta in Hc.
    repeat (apply andb_prop in Hc; destruct Hc as [Hc ?]). assumption.
Qed.

Lemma plain_lt_128 (enc : bytes) :
  forallb plain enc = true ->
  forallb (fun c => (Byte.to_N c <? 128)%N) enc = true.
Proof.
  apply forallb_weaken. intros c Hc. unfold plain in Hc. cbv zeta in Hc.
  repeat (apply andb_prop in Hc; destruct Hc as [Hc ?]). exact Hc.
Qed.

Lemma b64decode_standard (b : bytes) :
  b64decode (decode_ascii (b64encode b)) = Ok b.
Proof.
  unfold b64decode.
  rewrite encode_decode_ascii by apply plain_lt_128, plain_b64encode.
  apply a2b_base64_b64encode.
Qed.

Lemma decode_ascii_app (a b : bytes) :
  decode_ascii (a ++ b) = decode_ascii a ++ decode_ascii b.
Proof. apply map_app. Qed.

Lemma decode_ascii_pads (n : nat) :
  decode_ascii (repeat PAD n) = repeat EQUALS n.
Proof. induction n as [|n IH]; [reflexivity|]. simpl. now rewrite <- IH. Qed.

(** The data characters of an encoding decode to the bytes encoded. *)
Lemma b64decode_loose_body (b body : bytes) (n : nat) :
  b64encode b = body ++ repeat PAD n ->
  n = 0 /\ length body mod 4 = 0 /\ length b mod 3 = 0
  \/ n = 1 /\ length body mod 4 = 3 /\ length b mod 3 = 2
  \/ n = 2 /\ length body mod 4 = 2 /\ length b mod 3 = 1 ->
  b64decode_loose (decode_ascii body) = Ok b.
Proof.
  intros E C.
  assert (Hp : forallb plain body = true).
  { pose proof (plain_b64encode b) as H. rewrite E, forallb_app in H.
    apply andb_prop in H. now destruct H. }
  rewrite b64decode_loose_eq, (plain_prepared body Hp). cbv zeta.
  assert (L : length (decode_ascii body) = length body) by apply length_map.
  rewrite L. rewrite <- (b64decode_standard b), E.
  rewrite decode_ascii_app, decode_ascii_pads.
  destruct C as [[-> [M _]]|[[-> [M _]]|[-> [M _]]]]; rewrite M;
    cbn [Nat.eqb orb Nat.sub repeat]; [now rewrite app_nil_r | | ]; reflexivity.
Qed.

Lemma strip_padding_body (body : bytes) (n : nat) :
  forallb data_byte body = true ->
  strip_padding (decode_ascii body ++ repeat EQUALS n) = decode_ascii body.
Proof.
  intros F. unfold strip_padding. rewrite rstrip_app.
  assert (R : rstrip (one_of [EQUALS]) (repeat EQUALS n) = []).
  { apply rstrip_all. clear. induction n as [|n IH]; [reflexivity|].
    simpl. rewrite IH. reflexivity. }
  rewrite R. apply rstrip_id. unfold ends_with.
  destruct (rev (decode_ascii body)) as [|c r] eqn:Er; [reflexivity|].
  simpl. unfold one_of. cbn [existsb]. rewrite orb_false_r.
  assert (Hin : In c (decode_ascii body))
    by (apply in_rev; rewrite Er; now left).
  unfold decode_ascii in Hin. apply in_map_iff in Hin.
  destruct Hin as [x [<- Hx]].
  rewrite forallb_forall in F. apply data_byte_not_equals, F, Hx.
Qed.

Lemma b64decode_loose_unpadded (b : bytes) :
  b64decode_loose (strip_padding (decode_ascii (b64encode b))) = Ok b.
Proof.
  destruct (b64encode_body b) as [body [n [E [F C]]]].
  rewrite E, decode_ascii_app, decode_ascii_pads.
  rewrite (strip_padding_body body n F).
  exact (b64decode_loose_body b body n E C).
Qed.

End Unpadded.

(** X4. [b64decode_loose] gives back the bytes whose standard base64
    encoding it is given without the padding, in the standard or in the
    URL-safe spelling. *)
Theorem b64decode_loose_missing_padding (b : bytes) :
  b64decode_loose (strip_padding (decode_ascii (Base64.b64encode b))) = Ok b
  /\ b64decode_loose
       (urlsafe (strip_padding (decode_ascii (Base64.b64encode b)))) = Ok b.
Proof.
  split.
  - apply Unpadded.b64decode_loose_unpadded.
  - rewrite LooseFacts.b64decode_loose_eq. unfold urlsafe at 1.
    rewrite !strip_replace by reflexivity.
    fold (urlsafe (strip isspace
                     (strip_padding (decode_ascii (Base64.b64encode b))))).
    rewrite to_standard_urlsafe, <- LooseFacts.b64decode_loose_eq.
    apply Unpadded.b64decode_loose_unpadded.
Qed.

(** ** What decodes and what does not *)

Lemma length_strip_le (p : char -> bool) (s : str) :
  length (strip p s) <= length s.
Proof.
  destruct (strip_split p s) as [pre [post [E _]]].
  rewrite E at 2. rewrite !length_app. lia.
Qed.

Module Decodable.
Import Base64 Base64Spec Base64Facts Base64Roundtrip LooseFacts.

Lemma encode_ascii_non_ascii (s : str) (c : char) :
  In c s -> (128 <= c)%N -> encode_ascii s = None.
Proof.
  induction s as [|x s IH]; intros Hin Hc; [destruct Hin|].
  simpl. destruct (N.ltb_spec x 128) as [Hx|Hx]; [|reflexivity].
  destruct Hin as [->|Hin]; [lia|]. now rewrite (IH Hin Hc).
Qed.

Lemma to_standard_keeps (s : str) (c : char) :
  In c s -> (128 <= c)%N -> In c (to_standard s).
Proof.
  intros Hin Hc. unfold to_standard, replace. rewrite map_map.
  apply in_map_iff. exists c. split; [|exact Hin].
  change (N_of_ascii "-") with 45%N. change (N_of_ascii "_") with 95%N.
  change (N_of_ascii "+") with 43%N. change (N_of_ascii "/") with 47%N.
  destruct (N.eqb_spec c 45); [lia|].
  destruct (N.eqb_spec c 95); [lia | reflexivity].
Qed.

Lemma count_not_pad_cons (c : byte) (data : bytes) :
  count_not_pad (c :: data)
  = if Byte.eqb c PAD then count_not_pad data else S (count_not_pad data).
Proof. unfold count_not_pad. simpl. now destruct (Byte.eqb c PAD). Qed.

Lemma a2b_loop_bound (data : bytes) :
  forall quad_pos leftchar pads bin raw,
    a2b_loop data quad_pos leftchar pads bin = Ok raw ->
    4 * length raw
    <= 4 * length bin + 3 * count_not_pad data + credit quad_pos.
Proof.
  induction data as [|c data IH]; intros quad_pos leftchar pads bin raw H.
  - destruct quad_pos as [|[|q]]; simpl in H; try discriminate.
    injection H as <-. simpl. lia.
  - cbn [a2b_loop] in H. rewrite count_not_pad_cons.
    destruct (Byte.eqb c PAD).
    + destruct (2 <=? quad_pos).
      * destruct (4 <=? quad_pos + S pads).
        -- injection H as <-. lia.
        -- apply IH in H. lia.
      * apply IH in H. lia.
    + cbv zeta in H. destruct (64 <=? table_a2b_base64 c)%N.
      * apply IH in H. lia.
      * destruct quad_pos as [|[|[|q]]]; apply IH in H;
          rewrite ?length_app in H; cbn [length credit] in *; lia.
Qed.

Lemma length_encode_ascii (s : str) (d : bytes) :
  encode_ascii s = Some d -> length d = length s.
Proof.
  revert d. induction s as [|c s IH]; intros d; simpl.
  - now intros [= <-].
  - destruct (c <? 128)%N; [|discriminate].
    destruct (encode_ascii s) as [d'|]; [|discriminate].
    intros [= <-]. simpl. now rewrite (IH d' eq_refl).
Qed.

Lemma encode_ascii_app_inv (s t : str) (d : bytes) :
  encode_ascii (s ++ t) = Some d ->
  exists a b, encode_ascii s = Some a /\ encode_ascii t = Some b
              /\ d = a ++ b.
Proof.
  revert d. induction s as [|c s IH]; intros d; simpl.
  - intros H. exists [], d. auto.
  - destruct (c <? 128)%N; [|discriminate].
    destruct (encode_ascii (s ++ t)) as [d'|] eqn:E; [|discriminate].
    intros [= <-]. destruct (IH d' eq_refl) as [a [b [Ha [Hb ->]]]].
    rewrite Ha. exists (byte_of_N c :: a), b. auto.
Qed.

Lemma count_not_pad_le (data : bytes) : count_not_pad data <= length data.
Proof. apply filter_length_le. Qed.

Lemma count_not_pad_pads (d : bytes) (n : nat) :
  count_not_pad (d ++ repeat PAD n) = count_not_pad d.
Proof.
  unfold count_not_pad. rewrite filter_app, length_app.
  assert (filter (fun c => negb (Byte.eqb c PAD)) (repeat PAD n) = []) as ->.
  { induction n as [|n IH]; [reflexivity | exact IH]. }
  simpl. lia.
Qed.

Lemma decoded_length_bound (s : str) (raw : bytes) :
  b64decode_loose s = Ok raw ->
  4 * length raw <= 3 * length (strip isspace s).
Proof.
  rewrite b64decode_loose_eq. cbv zeta.
  rewrite length_to_standard.
  set (t := to_standard (strip isspace s)).
  assert (Lt : length t = length (strip isspace s))
    by apply length_to_standard.
  rewrite <- Lt.
  destruct (_ =? 1); [discriminate|].
  assert (Hpad : forall k, b64decode (t ++ repeat EQUALS k) = Ok raw ->
                           4 * length raw <= 3 * length t).
  { intros k H. unfold b64decode in H.
    destruct (encode_ascii (t ++ repeat EQUALS k)) as [d|] eqn:E;
      [|discriminate].
    apply encode_ascii_app_inv in E. destruct E as [a [b [Ha [Hb ->]]]].
    rewrite encode_ascii_pads in Hb. injection Hb as <-.
    apply a2b_loop_bound in H. rewrite count_not_pad_pads in H.
    pose proof (count_not_pad_le a) as Hc.
    rewrite (length_encode_ascii _ _ Ha) in Hc. simpl in H. lia. }
  destruct (_ || _); [apply Hpad|].
  intros H. apply (Hpad 0). simpl. now rewrite app_nil_r.
Qed.

Lemma a2b_loop_pads_from_2 (leftchar : N) (pads : nat) (bin : bytes) :
  a2b_loop [PAD; PAD] 2 leftchar pads bin = Ok bin.
Proof. destruct pads; reflexivity. Qed.

Lemma a2b_loop_pad_from_3 (leftchar : N) (pads : nat) (bin : bytes) :
  a2b_loop [PAD] 3 leftchar pads bin = Ok bin.
Proof. reflexivity. Qed.

(** Data characters decode unless they are one more than a multiple of
    four. *)
Lemma data_chars_decode (s : str) :
  forallb data_char s = true ->
  length s mod 4 <> 1 ->
  exists raw, b64decode_loose s = Ok raw.
Proof.
  intros Hd Hm. rewrite b64decode_loose_eq.
  assert (Hs : strip isspace s = s).
  { apply strip_none. apply (forallb_weaken data_char); [|exact Hd].
    intros c Hc. destruct (data_char_facts c Hc) as [K _]. now rewrite K. }
  rewrite Hs. cbv zeta. rewrite length_to_standard.
  destruct (encode_ascii_data s Hd) as [d [E [L F]]].
  pose proof (Nat.mod_upper_bound (length s) 4) as U.
  destruct (length s mod 4) as [|[|[|[|m]]]] eqn:M; try lia.
  - cbn [Nat.eqb orb]. unfold b64decode. rewrite E. unfold a2b_base64.
    destruct (a2b_loop_data d [] F 0 0%N 0 []) as [lc [p [bin' H]]]; [lia|].
    rewrite app_nil_r, L in H. simpl Nat.add in H. rewrite M in H.
    rewrite H. exists bin'. reflexivity.
  - cbn [Nat.eqb orb Nat.sub]. unfold b64decode.
    rewrite (encode_ascii_app _ _ _ _ E (encode_ascii_pads 2)).
    unfold a2b_base64.
    destruct (a2b_loop_data d (repeat PAD 2) F 0 0%N 0 [])
      as [lc [p [bin' H]]]; [lia|].
    rewrite L in H. simpl Nat.add in H. rewrite M in H. rewrite H.
    cbn [repeat]. rewrite a2b_loop_pads_from_2. eauto.
  - cbn [Nat.eqb orb Nat.sub]. unfold b64decode.
    rewrite (encode_ascii_app _ _ _ _ E (encode_ascii_pads 1)).
    unfold a2b_base64.
    destruct (a2b_loop_data d (repeat PAD 1) F 0 0%N 0 [])
      as [lc [p [bin' H]]]; [lia|].
    rewrite L in H. simpl Nat.add in H. rewrite M in H. rewrite H.
    cbn [repeat]. rewrite a2b_loop_pad_from_3. eauto.
Qed.

End Decodable.

(** X5. A string with a non-ASCII character, surrounding whitespace apart,
    never decodes: [b64decode_loose] raises its own length error or the
    error of the library for non-ASCII input. *)
Theorem b64decode_loose_rejects_non_ascii (s : str) (c : char) :
  In c (strip isspace s) -> (128 <= c)%N ->
  b64decode_loose s = Err InvalidLengthMod4
  \/ b64decode_loose s = Err NonAsciiString.
Proof.
  intros Hin Hc. rewrite LooseFacts.b64decode_loose_eq. cbv zeta.
  destruct (_ =? 1); [now left|]. right. unfold Base64.b64decode.
  pose proof (Decodable.to_standard_keeps _ c Hin Hc) as Ht.
  match goal with
  | |- context [encode_ascii ?t] =>
      assert (E : encode_ascii t = None)
  end.
  { apply Decodable.encode_ascii_non_ascii with c; [|exact Hc].
    destruct (_ || _); [apply in_or_app; now left | exact Ht]. }
  now rewrite E.
Qed.

Lemma b64decode_loose_rejects_non_ascii_witness :
  b64decode_loose [81; 85; 233; 68]%N = Err InvalidLengthMod4
  \/ b64decode_loose [81; 85; 233; 68]%N = Err NonAsciiString.
Proof.
  apply (b64decode_loose_rejects_non_ascii [81; 85; 233; 68]%N 233%N).
  - simpl. tauto.
  - vm_compute. discriminate.
Defined.

(** X6. The bytes that [b64decode_loose] returns are at most three for
    every four characters of the string, surrounding whitespace apart; a
    string of fewer than 23 characters never gives the 17 bytes that the
    Decryptor asks for. *)
Theorem b64decode_loose_length_bound (s : str) (raw : bytes) :
  b64decode_loose s = Ok raw ->
  4 * length raw <= 3 * length (strip isspace s)
  /\ (length s < 23 -> length raw < 17).
Proof.
  intros H. pose proof (Decodable.decoded_length_bound s raw H) as Hb.
  split; [exact Hb|]. intros Hs.
  destruct (strip_split isspace s) as [pre [post [E _]]].
  rewrite E in Hs. rewrite !length_app in Hs. lia.
Qed.

Lemma b64decode_loose_length_bound_witness :
  4 * length ["A"; "B"]%byte <= 3 * length (strip isspace (lit " QUI "))
  /\ (length (lit " QUI ") < 23 -> length ["A"; "B"]%byte < 17).
Proof.
  apply (b64decode_loose_length_bound (lit " QUI ") ["A"; "B"]%byte).
  reflexivity.
Defined.

(** X7. A string of data characters, of either alphabet, decodes whenever
    its length is not one more than a multiple of four: the missing padding
    is added. *)
Theorem b64decode_loose_accepts_data (s : str) :
  forallb Base64Spec.data_char s = true ->
  length s mod 4 <> 1 ->
  exists raw,
    b64decode_loose s = Ok raw /\ 4 * length raw <= 3 * length s.
Proof.
  intros Hd Hm. destruct (Decodable.data_chars_decode s Hd Hm) as [raw H].
  exists raw. split; [exact H|].
  pose proof (Decodable.decoded_length_bound s raw H) as Hb.
  pose proof (length_strip_le isspace s). lia.
Qed.

Lemma b64decode_loose_accepts_data_witness :
  exists raw,
    b64decode_loose (lit "QU-_QQ") = Ok raw
    /\ 4 * length raw <= 3 * length (lit "QU-_QQ").
Proof.
  apply (b64decode_loose_accepts_data (lit "QU-_QQ")).
  - reflexivity.
  - vm_compute. discriminate.
Defined.

(** ** The Splitter: what it returns and what it reports *)

Lemma candidates_shape (b : str) (c : candidate) :
  In c (candidates_of b) ->
  18 <= length (fst c) <= 30 /\ 1 <= length (snd c).
Proof.
  unfold candidates_of. intros H.
  assert (Hsuf : forall c, In c (suffix_candidates b) ->
                           18 <= length (fst c) <= 30 /\ 1 <= length (snd c)).
  { intros c0 H0. rewrite suffix_candidates_flat_map in H0.
    apply in_flat_map in H0. destruct H0 as [k [Hk Hc]].
    apply suffix_guess_partition in Hc. destruct Hc as [Hl [_ [Hf Hs]]].
    rewrite Hf, Hs. unfold key_lens in Hk. simpl in Hk.
    destruct Hk as [<-|[<-|[<-|[<-|[]]]]]; lia. }
  destruct (in_dec N.eq_dec EQUALS b) as [Hin|Hout].
  - destruct (last_occurrence _ _ Hin) as [pre [post [E Hp]]].
    rewrite E in H at 1. rewrite (insert_delimiter_at pre post _ Hp) in H.
    destruct ((18 <=? length post) && (length post <=? 30)) eqn:C.
    + destruct H as [<- | H]; [|now apply Hsuf].
      apply andb_prop in C. destruct C as [C1 C2].
      apply Nat.leb_le in C1, C2. cbn [fst snd].
      rewrite length_app. simpl. lia.
    + now apply Hsuf.
  - rewrite (insert_delimiter_absent _ _ Hout) in H. now apply Hsuf.
Qed.

(** X8. The key material that [split_blob_guess] returns has between 18 and
    30 characters, the ciphertext half is not empty, and together they have
    the length of the trimmed blob. *)
Theorem split_key_length (blob key_str enc_b64 : str) :
  split_blob_guess blob = Ok (key_str, enc_b64) ->
  18 <= length key_str <= 30
  /\ 1 <= length enc_b64
  /\ length enc_b64 + length key_str = length (trim blob).
Proof.
  intros H. apply (proj1 (validate_first _ _ _)) in H.
  apply first_decodable_in in H. destruct H as [H _].
  destruct (candidates_shape _ _ H) as [Hk He]. cbn [fst snd] in *.
  split; [exact Hk|]. split; [exact He|].
  apply candidates_partition in H. cbn [fst snd] in H.
  rewrite <- H, length_app. reflexivity.
Qed.

Lemma split_key_length_witness :
  18 <= length (lit "abcdefghijklmnopqrstu") <= 30
  /\ 1 <= length (lit "QUJDQUJDQUJDQUJDQQ==")
  /\ length (lit "QUJDQUJDQUJDQUJDQQ==") + length (lit "abcdefghijklmnopqrstu")
     = length (trim (lit " 'QUJDQUJDQUJDQUJDQQ==abcdefghijklmnopqrstu' ")).
Proof.
  apply (split_key_length
           (lit " 'QUJDQUJDQUJDQUJDQQ==abcdefghijklmnopqrstu' ")).
  reflexivity.
Defined.

Lemma validate_diagnostic (cs : list candidate) (errors : list attempt)
    (e : error) :
  validate cs errors = Err e ->
  e = SplitFailed (firstn 8 (errors ++ List.map attempt_of cs)).
Proof.
  revert errors. induction cs as [|[k enc] cs IH]; intros errors; simpl.
  - intros [= <-]. now rewrite app_nil_r.
  - unfold attempt_of at 1. cbn [fst snd].
    destruct (b64decode_loose enc) as [raw|err]; [discriminate|].
    intros H. apply IH in H. rewrite <- app_assoc in H. exact H.
Qed.

Lemma candidates_count (b : str) : length (candidates_of b) <= 5.
Proof.
  unfold candidates_of.
  assert (Hs : length (suffix_candidates b) <= 4).
  { rewrite suffix_candidates_flat_map. unfold key_lens, suffix_guess.
    cbn [flat_map]. rewrite !length_app.
    repeat match goal with
           | |- context [length (if ?c then _ else _)] => destruct c
           end; simpl; lia. }
  unfold insert_delimiter. destruct (negb _ && _); [|lia].
  destruct (_ && _); simpl; lia.
Qed.

(** X9. When no candidate decodes, [split_blob_guess] raises the split error
    with one entry for each candidate, in the order tried: the first eight
    characters of the key, the length of the ciphertext half and the error
    of the decoder; there are at most five, so none is cut from the
    message. *)
Theorem split_failure_diagnostic (blob : str) (e : error) :
  split_blob_guess blob = Err e ->
  e = SplitFailed (List.map attempt_of (candidates_of (trim blob)))
  /\ length (candidates_of (trim blob)) <= 5
  /\ Forall (fun c => exists err, b64decode_loose (snd c) = Err err)
       (candidates_of (trim blob)).
Proof.
  intros H. pose proof (candidates_count (trim blob)) as Hc.
  split; [|split; [exact Hc|]].
  - apply validate_diagnostic in H. cbn [app] in H.
    rewrite firstn_all2 in H by (rewrite length_map; lia). exact H.
  - apply (validate_fails _ []). unfold split_blob_guess in H.
    destruct (validate_error _ _ _ H) as [a ->]. eauto.
Qed.

Lemma split_failure_diagnostic_witness :
  SplitFailed
    [(lit "HQUJDRUZ", 16, NonAsciiString); (lit "ZHQUJDRU", 15, NonAsciiString);
     (lit "QUJDRUZH", 17, InvalidLengthMod4); (lit "UZHQUJDR", 14, NonAsciiString)]
  = SplitFailed
      (List.map attempt_of
         (candidates_of
            (trim (233%N :: lit "QUJDRUZHQUJDRUZHQUJDRUZHQUJDRUZHQUJD")))).
Proof.
  apply (split_failure_diagnostic
           (233%N :: lit "QUJDRUZHQUJDRUZHQUJDRUZHQUJDRUZHQUJD")).
  reflexivity.
Defined.

Lemma no_candidates (b : str) :
  length b <= 18 \/ (length b <= 30 /\ ~ In EQUALS b) ->
  candidates_of b = [].
Proof.
  intros H. unfold candidates_of.
  assert (Hs : suffix_candidates b = []).
  { rewrite suffix_candidates_flat_map. unfold key_lens, suffix_guess.
    cbn [flat_map].
    repeat match goal with
           | |- context [?a <=? ?k] => destruct (Nat.leb_spec a k); [|lia]
           end.
    reflexivity. }
  rewrite Hs. destruct (in_dec N.eq_dec EQUALS b) as [Hin|Hout];
    [|now apply insert_delimiter_absent].
  destruct H as [H|[_ H]]; [|contradiction].
  destruct (last_occurrence _ _ Hin) as [pre [post [E Hp]]].
  rewrite E at 1. rewrite (insert_delimiter_at pre post _ Hp).
  rewrite E, length_app in H. simpl in H.
  destruct (Nat.leb_spec 18 (length post)); [lia | reflexivity].
Qed.

(** X10. A blob that is, once trimmed, of at most 18 characters, or of at
    most 30 characters without [=], has no candidate: [split_blob_guess]
    raises the split error with an empty list of attempts.  The empty blob
    is such a blob. *)
Theorem split_short_blob (blob : str) :
  length (trim blob) <= 18
  \/ (length (trim blob) <= 30 /\ ~ In EQUALS (trim blob)) ->
  split_blob_guess blob = Err (SplitFailed []).
Proof.
  intros H. unfold split_blob_guess. now rewrite (no_candidates _ H).
Qed.

Lemma split_short_blob_witness :
  split_blob_guess (lit " 'QUJD=abcdefghijklm' ") = Err (SplitFailed []).
Proof.
  apply (split_short_blob (lit " 'QUJD=abcdefghijklm' ")).
  left. vm_compute. lia.
Defined.

(** ** The Splitter on blobs put together from an encoding and a key *)

Module Recover.
Import Base64 Base64Spec LooseFacts Unpadded.

Lemma enc_first_inner (raw : bytes) (c : char) (rest : str) :
  decode_ascii (b64encode raw) = c :: rest -> outer c = false.
Proof.
  intros E. pose proof (enc_inner raw) as H. rewrite E in H.
  simpl in H. apply andb_prop in H. now apply negb_true_iff, (proj1 H).
Qed.

(** The encoding of a number of bytes that is not a multiple of three ends
    with a pad, and it has no pad at all otherwise. *)
Lemma enc_padded (raw : bytes) :
  length raw mod 3 <> 0 ->
  exists epre, decode_ascii (b64encode raw) = epre ++ [EQUALS].
Proof.
  intros H. destruct (b64encode_body raw) as [body [n [E [F C]]]].
  rewrite E, decode_ascii_app, decode_ascii_pads.
  destruct C as [[_ [_ M]]|[[-> _]|[-> _]]]; [contradiction| |].
  - exists (decode_ascii body). reflexivity.
  - exists (decode_ascii body ++ [EQUALS]). now rewrite <- app_assoc.
Qed.

Lemma enc_unpadded (raw : bytes) :
  length raw mod 3 = 0 -> ~ In EQUALS (decode_ascii (b64encode raw)).
Proof.
  intros H. destruct (b64encode_body raw) as [body [n [E [F C]]]].
  destruct C as [[-> _]|[[_ [_ M]]|[_ [_ M]]]];
    [|rewrite H in M; discriminate M..].
  rewrite E. cbn [repeat]. rewrite app_nil_r. unfold decode_ascii.
  intros Hin. apply in_map_iff in Hin. destruct Hin as [x [Hx Hin]].
  rewrite forallb_forall in F. specialize (F x Hin).
  apply data_byte_not_equals in F. rewrite Hx, N.eqb_refl in F. discriminate.
Qed.

Lemma trim_blob (raw : bytes) (key : str) :
  raw <> [] -> key <> [] -> ends_with outer key = false ->
  trim (decode_ascii (b64encode raw) ++ key)
  = decode_ascii (b64encode raw) ++ key.
Proof.
  intros Hr Hk He.
  destruct (decode_ascii (b64encode raw)) as [|c rest] eqn:E.
  - destruct raw as [|b0 [|b1 [|b2 r]]]; [contradiction|discriminate..].
  - apply trim_id.
    + simpl. apply (enc_first_inner raw c rest E).
    + rewrite ends_with_app by exact Hk. exact He.
Qed.

Lemma first_guess (b : str) :
  ~ In EQUALS b ->
  31 < length b ->
  exists rest,
    candidates_of b
    = (skipn (length b - 21) b, firstn (length b - 21) b) :: rest.
Proof.
  intros Hb HL. unfold candidates_of.
  rewrite (insert_delimiter_absent _ _ Hb), suffix_candidates_flat_map.
  unfold key_lens. cbn [flat_map]. unfold suffix_guess at 1.
  destruct (Nat.leb_spec (length b) (21 + 10)); [lia|]. cbn [app]. eauto.
Qed.

Lemma second_guess (b : str) :
  ~ In EQUALS b ->
  32 < length b ->
  exists rest,
    candidates_of b
    = (skipn (length b - 21) b, firstn (length b - 21) b)
      :: (skipn (length b - 22) b, firstn (length b - 22) b) :: rest.
Proof.
  intros Hb HL. unfold candidates_of.
  rewrite (insert_delimiter_absent _ _ Hb), suffix_candidates_flat_map.
  unfold key_lens. cbn [flat_map]. unfold suffix_guess at 1 2.
  destruct (Nat.leb_spec (length b) (21 + 10)); [lia|].
  destruct (Nat.leb_spec (length b) (22 + 10)); [lia|]. cbn [app]. eauto.
Qed.

End Recover.

(** X11. When the encoded ciphertext is a standard encoding that ends with a
    pad, a key material of 18 to 30 characters without [=], and without a
    character at its end that the trim removes, is cut off where it was
    appended: the split on the last [=] is tried first and validates. *)
Theorem delimiter_split_recovers_key (raw : bytes) (key : str) :
  length raw mod 3 <> 0 ->
  18 <= length key <= 30 ->
  ~ In EQUALS key ->
  ends_with outer key = false ->
  split_blob_guess (decode_ascii (Base64.b64encode raw) ++ key)
  = Ok (key, decode_ascii (Base64.b64encode raw)).
Proof.
  intros Hm [H18 H30] Hk He.
  assert (Hr : raw <> []) by (intros ->; now apply Hm).
  assert (Hkn : key <> []) by (intros ->; simpl in H18; lia).
  unfold split_blob_guess. rewrite (Recover.trim_blob raw key Hr Hkn He).
  destruct (Recover.enc_padded raw Hm) as [epre E].
  unfold candidates_of. rewrite E at 1. rewrite <- app_assoc. cbn [app].
  rewrite (insert_delimiter_at epre key _ Hk).
  apply Nat.leb_le in H18, H30. rewrite H18, H30. cbn [andb].
  cbn [validate]. rewrite <- E, LooseFacts.b64decode_loose_standard.
  reflexivity.
Qed.

Lemma delimiter_split_recovers_key_witness :
  split_blob_guess
    (decode_ascii (Base64.b64encode ["A"; "B"; "C"; "D"]%byte)
     ++ lit "a-key-of-25-characters-xx")
  = Ok (lit "a-key-of-25-characters-xx",
        decode_ascii (Base64.b64encode ["A"; "B"; "C"; "D"]%byte)).
Proof.
  apply (delimiter_split_recovers_key ["A"; "B"; "C"; "D"]%byte
           (lit "a-key-of-25-characters-xx")).
  - vm_compute. discriminate.
  - vm_compute. lia.
  - simpl. intros H. repeat (destruct H as [H|H]; [discriminate H|]). exact H.
  - reflexivity.
Defined.

(** X12. Without a [=] in the trimmed blob, the first guess wins whenever
    the characters before the last 21 are data characters whose number is
    not one more than a multiple of four, whatever the length of the key
    material that was appended. *)
Theorem first_guess_wins (blob : str) :
  let b := trim blob in
  let L := length b in
  ~ In EQUALS b ->
  31 < L ->
  forallb Base64Spec.data_char (firstn (L - 21) b) = true ->
  (L - 21) mod 4 <> 1 ->
  split_blob_guess blob = Ok (skipn (L - 21) b, firstn (L - 21) b).
Proof.
  intros b L Hb HL Hd Hm. unfold split_blob_guess. fold b.
  destruct (Recover.first_guess b Hb HL) as [rest ->]. fold L.
  cbn [validate].
  destruct (Decodable.data_chars_decode (firstn (L - 21) b) Hd) as [raw ->].
  - rewrite length_firstn. fold L. now replace (Nat.min (L - 21) L) with (L - 21) by lia.
  - reflexivity.
Qed.

Lemma first_guess_wins_witness :
  split_blob_guess (lit "QUJDQUJDQUJDQUJDQUJDQUJDabcdefghijklmnopqrst")
  = Ok (lit "Dabcdefghijklmnopqrst", lit "QUJDQUJDQUJDQUJDQUJDQUJ").
Proof.
  apply (first_guess_wins (lit "QUJDQUJDQUJDQUJDQUJDQUJDabcdefghijklmnopqrst")).
  - simpl. intros H. repeat (destruct H as [H|H]; [discriminate H|]). exact H.
  - vm_compute. lia.
  - reflexivity.
  - vm_compute. discriminate.
Defined.

Lemma firstn_app_length {T : Type} (a b : list T) (n : nat) :
  firstn (length a + n) (a ++ b) = a ++ firstn n b.
Proof.
  rewrite firstn_app. replace (length a + n - length a) with n by lia.
  now rewrite firstn_all2 by lia.
Qed.

Lemma skipn_app_length {T : Type} (a b : list T) (n : nat) :
  skipn (length a + n) (a ++ b) = skipn n b.
Proof.
  rewrite skipn_app. replace (length a + n - length a) with n by lia.
  now rewrite skipn_all2 by lia.
Qed.

(** X13. A key material of 22 characters appended to a standard encoding
    without padding is cut off where it was appended: the first guess
    leaves a ciphertext half one character too long, which the length check
    rejects, and the second guess validates. *)
Theorem key_of_22_recovered (raw : bytes) (key : str) :
  length raw mod 3 = 0 ->
  9 <= length raw ->
  length key = 22 ->
  ~ In EQUALS key ->
  ends_with outer key = false ->
  starts_with isspace key = false ->
  split_blob_guess (decode_ascii (Base64.b64encode raw) ++ key)
  = Ok (key, decode_ascii (Base64.b64encode raw)).
Proof.
  intros Hm Hr Hk Hne He Hs.
  set (enc := decode_ascii (Base64.b64encode raw)).
  assert (Hlen : exists m, length enc = 4 * m /\ 3 <= m).
  { exists ((length raw + 2) / 3). split.
    - unfold enc, decode_ascii. rewrite length_map.
      apply LooseFacts.length_b64encode.
    - apply Nat.div_le_lower_bound; lia. }
  destruct Hlen as [m [Hlen Hm3]].
  assert (Hrn : raw <> []) by (intros ->; simpl in Hr; lia).
  assert (Hkn : key <> []) by (intros ->; discriminate).
  pose proof (Recover.trim_blob raw key Hrn Hkn He) as Ht. fold enc in Ht.
  unfold split_blob_guess. rewrite Ht.
  assert (Hb : ~ In EQUALS (enc ++ key)).
  { intros H. apply in_app_or in H. destruct H as [H|H]; [|contradiction].
    revert H. now apply Recover.enc_unpadded. }
  destruct (Recover.second_guess (enc ++ key) Hb) as [rest ->];
    [rewrite length_app; lia|].
  rewrite length_app, Hk.
  replace (length enc + 22 - 21) with (length enc + 1) by lia.
  replace (length enc + 22 - 22) with (length enc + 0) by lia.
  rewrite !firstn_app_length, !skipn_app_length.
  destruct key as [|k0 key']; [contradiction|].
  cbn [firstn skipn validate]. rewrite app_nil_r.
  assert (Hrej : b64decode_loose (enc ++ [k0]) = Err InvalidLengthMod4).
  { apply LooseFacts.explicit_error_iff.
    assert (strip isspace (enc ++ [k0]) = enc ++ [k0]) as ->.
    { destruct enc as [|c e'] eqn:Ee; [simpl in Hlen; lia|].
      apply strip_id.
      - simpl. pose proof (Recover.enc_first_inner raw c e' Ee) as Ho.
        unfold outer in Ho. apply orb_false_elim in Ho.
        destruct Ho as [Ho _]. apply orb_false_elim in Ho. tauto.
      - rewrite ends_with_app by discriminate. exact Hs. }
    rewrite length_app, Hlen. cbn [length].
    replace (4 * m + 1) with (1 + m * 4) by lia.
    now rewrite Nat.Div0.mod_add. }
  rewrite Hrej. unfold enc. rewrite LooseFacts.b64decode_loose_standard.
  reflexivity.
Qed.

Lemma key_of_22_recovered_witness :
  split_blob_guess
    (decode_ascii (Base64.b64encode (repeat "A"%byte 9))
     ++ lit "abcdefghijklmnopqrstuv")
  = Ok (lit "abcdefghijklmnopqrstuv",
        decode_ascii (Base64.b64encode (repeat "A"%byte 9))).
Proof.
  apply (key_of_22_recovered (repeat "A"%byte 9) (lit "abcdefghijklmnopqrstuv")).
  - reflexivity.
  - vm_compute. lia.
  - reflexivity.
  - simpl. intros H. repeat (destruct H as [H|H]; [discriminate H|]). exact H.
  - reflexivity.
  - reflexivity.
Defined.

(** ** The Decryptor: its errors and the blobs it accepts *)

Section DecryptorErrors.

Variable sha256 : bytes -> bytes.
Variable aes_encrypt_block : bytes -> bytes -> bytes.
Variable utf8_encode : str -> option bytes.
Variable utf8_decode : bytes -> option str.
Variable json_loads : str -> option json.

Local Abbreviation decrypt_blob' :=
  (decrypt_blob sha256 aes_encrypt_block utf8_encode utf8_decode json_loads).


End DecryptorErrors.

Section DecryptorBound.

Variable sha256 : bytes -> bytes.
Variable aes_encrypt_block : bytes -> bytes -> bytes.
Variable utf8_encode : str -> option bytes.
Variable utf8_decode : bytes -> option str.
Variable json_loads : str -> option json.

(** X15. [decrypt_blob] returns a value only for a blob of at least 41
    characters after the trim: 18 or more of key material and 23 or more of
    encoded ciphertext, which it takes to hold 17 bytes. *)
Theorem decrypt_blob_needs_41 (blob : str) (v : json) :
  decrypt_blob sha256 aes_encrypt_block utf8_encode utf8_decode json_loads blob
  = Ok v ->
  41 <= length (trim blob)
  /\ exists key_str enc_b64,
       split_blob_guess blob = Ok (key_str, enc_b64)
       /\ 18 <= length key_str /\ 23 <= length enc_b64.
Proof.
  unfold decrypt_blob.
  destruct (split_blob_guess blob) as [[key_str enc_b64]|e0] eqn:S;
    [|discriminate].
  destruct (utf8_encode key_str) as [key_bytes|]; cbn [raise_none];
    [|discriminate].
  destruct (b64decode_loose enc_b64) as [raw|] eqn:D; cbn [raise_decode];
    [|discriminate].
  destruct (Nat.ltb_spec (length raw) 17) as [Hlt|Hge]; [discriminate|].
  intros _.
  pose proof (Decodable.decoded_length_bound enc_b64 raw D) as Hb.
  pose proof (length_strip_le isspace enc_b64) as Hs.
  pose proof S as S'. apply (proj1 (validate_first _ _ _)) in S'.
  apply first_decodable_in in S'. destruct S' as [Hin _].
  destruct (candidates_shape _ _ Hin) as [[Hk _] _]. cbn [fst] in Hk.
  apply candidates_partition in Hin. cbn [fst snd] in Hin.
  assert (He : 23 <= length enc_b64) by lia.
  split.
  - rewrite <- Hin, length_app. lia.
  - exists key_str, enc_b64. auto.
Qed.

End DecryptorBound.


Lemma decrypt_blob_needs_41_witness :
  41 <= length
          (trim (Sample.blob_of (lit "abcdefghijklmnopqrstu") (lit "1")
                   Sample.iv)).
Proof.
  apply (decrypt_blob_needs_41 Sample.sha256 Sample.aes_encrypt_block
           Sample.utf8_encode Sample.utf8_decode Sample.json_loads
           (Sample.blob_of (lit "abcdefghijklmnopqrstu") (lit "1") Sample.iv)
           (JInt 1)).
  vm_compute. reflexivity.
Defined.

(** ** The Locator: what it returns is in the document *)

(** X16. The string that the Locator returns is the string at [pageProps.a]
    of a node of the document, and the Locator returns a string whenever a
    node of the document has one there. *)
Theorem locator_sound_and_complete (data : json) :
  (forall s, find_pageprops_a data = Some s ->
             exists node,
               reach data node /\ string_at [PAGEPROPS; A] node = Some s)
  /\ (forall node s,
        reach data node -> string_at [PAGEPROPS; A] node = Some s ->
        exists s', find_pageprops_a data = Some s').
Proof.
  split.
  - intros s. unfold find_pageprops_a.
    rewrite direct_pageprops_path, direct_props_pageprops_path,
      rec_depth_first.
    destruct (string_at [PAGEPROPS; A] data) as [a|] eqn:E1.
    + intros [= <-]. exists data. split; [apply reach_here | exact E1].
    + destruct (string_at [PROPS; PAGEPROPS; A] data) as [a|] eqn:E2.
      * intros [= <-]. now apply props_pageprops_reach.
      * intros H. apply depth_first_reach.
        destruct (depth_first data) as [|x l]; [discriminate|].
        injection H as <-. now left.
  - intros node s R E. unfold find_pageprops_a.
    rewrite direct_pageprops_path, direct_props_pageprops_path,
      rec_depth_first.
    destruct (string_at [PAGEPROPS; A] data) as [a|]; [eauto|].
    destruct (string_at [PROPS; PAGEPROPS; A] data) as [a|]; [eauto|].
    assert (Hin : In s (depth_first data))
      by (apply depth_first_reach; eauto).
    destruct (depth_first data) as [|x l]; [destruct Hin | simpl; eauto].
Qed.

Lemma locator_sound_and_complete_witness :
  exists node,
    reach (JList [JDict [(lit "x", JDict [(PAGEPROPS,
                                           JDict [(A, JStr (lit "blob"))])])]])
      node
    /\ string_at [PAGEPROPS; A] node = Some (lit "blob").
Proof.
  apply (proj1 (locator_sound_and_complete
                  (JList [JDict [(lit "x",
                                  JDict [(PAGEPROPS,
                                          JDict [(A, JStr (lit "blob"))])])]]))
           (lit "blob")).
  reflexivity.
Defined.

(** ** The round trip for blobs without padding *)

Lemma forallb_replace (p : char -> bool) (old new : char) (s : str) :
  p old = p new -> forallb p (replace old new s) = forallb p s.
Proof.
  intros H. unfold replace. induction s as [|c s IH]; [reflexivity|].
  simpl. rewrite IH. destruct (N.eqb_spec c old) as [->|_];
    [now rewrite H | reflexivity].
Qed.

Lemma forallb_urlsafe_inner (s : str) :
  forallb (fun c => negb (outer c)) (urlsafe s)
  = forallb (fun c => negb (outer c)) s.
Proof. unfold urlsafe. now rewrite !forallb_replace by reflexivity. Qed.

Lemma in_urlsafe_equals (s : str) : In EQUALS (urlsafe s) -> In EQUALS s.
Proof.
  unfold urlsafe, replace. rewrite map_map. intros H.
  apply in_map_iff in H. destruct H as [c [Hc Hin]].
  change (N_of_ascii "+") with 43%N in Hc.
  change (N_of_ascii "/") with 47%N in Hc.
  change (N_of_ascii "-") with 45%N in Hc.
  change (N_of_ascii "_") with 95%N in Hc.
  destruct (N.eqb_spec c 43) as [E1|H1]; [discriminate Hc|].
  destruct (N.eqb_spec c 47) as [E2|H2]; [discriminate Hc|].
  cbv beta in Hc. rewrite Hc in Hin. exact Hin.
Qed.

(** One of the two spellings without padding of the encoding of [raw]. *)
Lemma unpadded_spelling (url : bool) (raw : bytes) :
  let enc := strip_padding (decode_ascii (Base64.b64encode raw)) in
  let enc' := if url then urlsafe enc else enc in
  b64decode_loose enc' = Ok raw
  /\ ~ In EQUALS enc'
  /\ forallb (fun c => negb (outer c)) enc' = true.
Proof.
  intros enc enc'.
  destruct (Unpadded.b64encode_body raw) as [body [n [E [F C]]]].
  assert (Eenc : enc = decode_ascii body).
  { unfold enc. rewrite E, Unpadded.decode_ascii_app, Unpadded.decode_ascii_pads.
    now apply Unpadded.strip_padding_body. }
  assert (H1 : b64decode_loose enc = Ok raw)
    by apply Unpadded.b64decode_loose_unpadded.
  assert (H2 : ~ In EQUALS enc).
  { rewrite Eenc. unfold decode_ascii. intros Hin.
    apply in_map_iff in Hin. destruct Hin as [x [Hx Hin]].
    rewrite forallb_forall in F. specialize (F x Hin).
    apply Unpadded.data_byte_not_equals in F.
    rewrite Hx, N.eqb_refl in F. discriminate. }
  assert (H3 : forallb (fun c => negb (outer c)) enc = true).
  { pose proof (enc_inner raw) as H.
    rewrite E, Unpadded.decode_ascii_app, forallb_app in H.
    apply andb_prop in H. rewrite Eenc. exact (proj1 H). }
  unfold enc'. destruct url; [|auto].
  split; [|split].
  - rewrite LooseFacts.b64decode_loose_eq. unfold urlsafe at 1.
    rewrite !strip_replace by reflexivity.
    fold (urlsafe (strip isspace enc)).
    now rewrite to_standard_urlsafe, <- LooseFacts.b64decode_loose_eq.
  - intros H. apply H2. now apply in_urlsafe_equals.
  - now rewrite forallb_urlsafe_inner.
Qed.

(** The first guess cuts a key material of 21 characters off a ciphertext
    half that decodes and has no [=]. *)
Lemma split_without_equals (enc' key : str) (raw : bytes) :
  b64decode_loose enc' = Ok raw ->
  17 <= length raw ->
  ~ In EQUALS enc' ->
  forallb (fun c => negb (outer c)) enc' = true ->
  length key = 21 ->
  ~ In EQUALS key ->
  ends_with outer key = false ->
  split_blob_guess (enc' ++ key) = Ok (key, enc').
Proof.
  intros Hd Hr He Hi Hk Hke Hko.
  pose proof (Decodable.decoded_length_bound enc' raw Hd) as Hb.
  pose proof (length_strip_le isspace enc') as Hs.
  assert (Hl : 23 <= length enc') by lia.
  assert (Hkn : key <> []) by (intros ->; discriminate).
  assert (Ht : trim (enc' ++ key) = enc' ++ key).
  { apply trim_id.
    - destruct enc' as [|c e]; [simpl in Hl; lia|]. simpl in *.
      apply andb_prop in Hi. now apply negb_true_iff, (proj1 Hi).
    - rewrite ends_with_app by exact Hkn. exact Hko. }
  unfold split_blob_guess. rewrite Ht.
  assert (Hne : ~ In EQUALS (enc' ++ key)).
  { intros H. apply in_app_or in H. tauto. }
  destruct (Recover.first_guess (enc' ++ key) Hne) as [rest ->];
    [rewrite length_app; lia|].
  rewrite length_app, Hk.
  replace (length enc' + 21 - 21) with (length enc' + 0) by lia.
  rewrite firstn_app_length, skipn_app_length.
  cbn [firstn skipn validate]. rewrite app_nil_r, Hd. reflexivity.
Qed.

Section UnpaddedPipeline.

Variable sha256 : bytes -> bytes.
Variable aes_encrypt_block : bytes -> bytes -> bytes.
Variable utf8_encode : str -> option bytes.
Variable utf8_decode : bytes -> option str.
Variable json_loads : str -> option json.

(** X17. The round trip of the inverse construction also holds when the
    encoded ciphertext is written without its padding, in the standard or
    in the URL-safe alphabet: for a key material of 21 characters without
    [=] that does not end in a character that the trim removes, the blob,
    found by the Locator, decrypts to the JSON value of the plaintext. *)
Theorem unpadded_pipeline_roundtrip (url : bool) (key_material text : str)
    (key_bytes iv pt : bytes) (v data : json) :
  let raw := iv ++ counter_mode aes_encrypt_block (sha256 key_bytes) iv pt in
  let enc := strip_padding (decode_ascii (Base64.b64encode raw)) in
  let enc' := if url then urlsafe enc else enc in
  length key_material = 21 ->
  ends_with outer key_material = false ->
  ~ In EQUALS key_material ->
  utf8_encode key_material = Some key_bytes ->
  length (sha256 key_bytes) = 32 ->
  (forall block, length block = 16 ->
                 length (aes_encrypt_block (sha256 key_bytes) block) = 16) ->
  length iv = 16 ->
  pt <> [] ->
  utf8_decode pt = Some text ->
  json_loads text = Some v ->
  find_pageprops_a data = Some (enc' ++ key_material) ->
  main sha256 aes_encrypt_block utf8_encode utf8_decode json_loads data
  = Ok v.
Proof.
  intros raw enc enc' Hk Hend Hne Hkb Hsha Hblock Hiv Hpt Htext Hv Hfind.
  set (ct := counter_mode aes_encrypt_block (sha256 key_bytes) iv pt) in *.
  assert (Hct : length ct = length pt)
    by (apply length_counter_mode, Hblock).
  assert (Hraw : 17 <= length raw).
  { unfold raw. rewrite length_app, Hiv, Hct.
    destruct pt; [contradiction | simpl; lia]. }
  destruct (unpadded_spelling url raw) as [Hd [He Hi]].
  fold enc in Hd, He, Hi. fold enc' in Hd, He, Hi.
  pose proof (split_without_equals enc' key_material raw Hd Hraw He Hi Hk
                Hne Hend) as Hsplit.
  unfold main. rewrite Hfind.
  assert (Hnn : not_ (Some (enc' ++ key_material)) = false).
  { destruct key_material as [|c k]; [discriminate|].
    destruct enc'; reflexivity. }
  rewrite Hnn.
  rewrite (decrypt_blob_long sha256 aes_encrypt_block utf8_encode utf8_decode
             json_loads _ key_material enc' key_bytes raw
             Hsplit Hkb Hsha Hd Hraw).
  unfold decryptor_steps, raw.
  assert (firstn 16 (iv ++ ct) = iv) as ->.
  { rewrite firstn_app, Hiv. replace (16 - 16) with 0 by lia.
    rewrite firstn_all2 by lia. cbn [firstn]. apply app_nil_r. }
  assert (skipn 16 (iv ++ ct) = ct) as ->.
  { rewrite skipn_app, Hiv. replace (16 - 16) with 0 by lia.
    rewrite skipn_all2 by lia. reflexivity. }
  unfold ct. rewrite (counter_mode_twice _ _ _ _ Hblock).
  rewrite Htext. cbn [raise_none]. now rewrite Hv.
Qed.

End UnpaddedPipeline.

Lemma unpadded_pipeline_roundtrip_witness :
  Sample.main
    (Sample.document
       (urlsafe
          (strip_padding
             (decode_ascii
                (Base64.b64encode
                   (Sample.iv
                    ++ counter_mode Sample.aes_encrypt_block
                         (Sample.sha256
                            (Sample.bytes_of (lit "abcdefghijklmnopqrstu")))
                         Sample.iv (Sample.bytes_of (lit "1"))))))
        ++ lit "abcdefghijklmnopqrstu"))
  = Ok (JInt 1).
Proof.
  apply (unpadded_pipeline_roundtrip Sample.sha256 Sample.aes_encrypt_block
           Sample.utf8_encode Sample.utf8_decode Sample.json_loads true
           (lit "abcdefghijklmnopqrstu") (lit "1")
           (Sample.bytes_of (lit "abcdefghijklmnopqrstu")) Sample.iv
           (Sample.bytes_of (lit "1")) (JInt 1)).
  - reflexivity.
  - reflexivity.
  - simpl. intros H. repeat (destruct H as [H|H]; [discriminate H|]). exact H.
  - reflexivity.
  - reflexivity.
  - intros block Hb.
    apply SampleFacts.block_length; [reflexivity | exact Hb].
  - reflexivity.
  - discriminate.
  - reflexivity.
  - reflexivity.
  - reflexivity.
Defined.
